(** * Whiteboard synchronisation core: shapes, history, undo/redo, peer messages

    A shallow embedding of the whiteboard component (the [App] function
    component and the module-level helpers above it) together with the
    properties of its document store, its undo/redo manager, its
    broadcast-channel handler, its hit testing and its pointer gestures.

    Conventions of the embedding.
    - A JavaScript [number] is an exact rational ([Q]): coordinates, sizes
      and the [rows] and [cols] of a table, which the table tool does not
      round.  Arithmetic on them is exact: the rounding of IEEE doubles is
      outside the model.  [NaN] and the infinities are outside the model,
      but for the one field the code tests for them, the [fontSize] of a
      text that arrives from a peer ([RawTextShape]).  Timestamps are
      integers.
    - A JavaScript string is a [string] of 8-bit code units.
    - An array is a [list] in array order: [push] appends at the end and
      [pop] removes the last element.
    - React state ([shapes], [history]) and the refs that mirror it
      ([shapesRef], [historyRef]) are separate fields of the context; the
      mirroring effects run in [flushEffects], after a handler returned. *)

From Stdlib Require Import QArith Qminmax Qround Lqa.
From stdpp Require Import base list strings pretty.

(** ** JavaScript array and string primitives *)

Module JS.

(** [Array.from({ length: n }, (_, i) => f i)] *)
Definition Array_from {A} (n : nat) (f : nat -> A) : list A := f <$> seq 0 n.

(** [a.slice(0, n)] *)
Definition slice_to {A} (n : nat) (a : list A) : list A := take n a.

(** [a.slice(-n)]: the last [n] elements, the whole array when shorter. *)
Definition slice_last {A} (n : nat) (a : list A) : list A :=
  drop (length a - n) a.

(** [a.push(x)] *)
Definition push {A} (a : list A) (x : A) : list A := a ++ [x].

(** [a.pop()]: the last element and the array without it. *)
Definition pop {A} (a : list A) : option (A * list A) :=
  match last a with
  | Some x => Some (x, removelast a)
  | None => None
  end.

(** White space and line terminators below code unit 256, the ones
    [String.prototype.trim] strips. *)
Definition isWhiteSpace (c : Ascii.ascii) : bool :=
  let n := Ascii.nat_of_ascii c in
  ((n =? 9) || (n =? 10) || (n =? 11) || (n =? 12) || (n =? 13)
   || (n =? 32) || (n =? 160))%nat.

Fixpoint trimStart (s : string) : string :=
  match s with
  | EmptyString => EmptyString
  | String c rest => if isWhiteSpace c then trimStart rest else s
  end.

Definition trimEnd (s : string) : string :=
  String.rev (trimStart (String.rev s)).

(** [s.trim()] *)
Definition trim (s : string) : string := trimEnd (trimStart s).

(** [Math.min(x, ...xs)] and [Math.max(x, ...xs)] on a non-empty spread. *)
Definition Math_min (x : Q) (xs : list Q) : Q := fold_left Qmin xs x.
Definition Math_max (x : Q) (xs : list Q) : Q := fold_left Qmax xs x.

(** The length [Array.from] reads from [{ length: n }]: [n] without its
    fraction, and [0] when that is negative. *)
Definition ToLength (n : Q) : nat := Z.to_nat (Qfloor n).

End JS.

(** ** Data model *)

Record Point := mkPoint { pt_x : Q; pt_y : Q }.

Record BaseShape := mkBase {
  id : string;
  createdBy : string;
  createdAt : Z
}.

Record PathShape := mkPath {
  path_base : BaseShape;
  points : list Point;
  path_stroke : string;
  strokeWidth : Q
}.

Record TextShape := mkText {
  text_base : BaseShape;
  text_x : Q;
  text_y : Q;
  text : string;
  color : string;
  fontSize : Q
}.

(** [cells] is [None] for a legacy table stored without a grid
    ([TableShape & { cells?: string[][] }]). *)
Record TableShape := mkTable {
  table_base : BaseShape;
  table_x : Q;
  table_y : Q;
  rows : Q;
  cols : Q;
  cellWidth : Q;
  cellHeight : Q;
  table_stroke : string;
  cells : option (list (list string))
}.

Inductive Shape :=
| Path (s : PathShape)
| Text (s : TextShape)
| Table (s : TableShape).

Definition shape_base (s : Shape) : BaseShape :=
  match s with
  | Path p => path_base p
  | Text t => text_base t
  | Table t => table_base t
  end.

Definition shape_id (s : Shape) : string := id (shape_base s).

Record HistoryItem := mkHistory {
  h_id : string;
  timestamp : Z;
  user : string;
  description : string
}.

(** A shape as it arrives on the channel or from storage, before
    [normalizeShape].  The source has the one type [Shape] for it, but a
    peer may run a version of the board whose texts have no [fontSize]:
    [rawText_fontSize] is [None] when the field is missing, is not a
    number, or is [NaN] or an infinity, the values that fail the test
    [typeof shape.fontSize === 'number' && Number.isFinite(shape.fontSize)].

    [Shape] above is what the tab holds and builds itself: every shape
    that enters the [shapes] state comes out of [normalizeShape] (the
    initial state, [handleMessage], [commitShape], [applyShapeUpdate]) or
    is made from one that did, so the [fontSize] of its texts is a finite
    number. *)
Record RawTextShape := mkRawText {
  rawText_base : BaseShape;
  rawText_x : Q;
  rawText_y : Q;
  rawText_text : string;
  rawText_color : string;
  rawText_fontSize : option Q
}.

Inductive RawShape :=
| RawPath (s : PathShape)
| RawText (s : RawTextShape)
| RawTable (s : TableShape).

(** A shape of this tab seen as a shape of the channel: the same fields. *)
Definition toRaw (shape : Shape) : RawShape :=
  match shape with
  | Path p => RawPath p
  | Text t =>
      RawText {| rawText_base := text_base t;
                 rawText_x := text_x t;
                 rawText_y := text_y t;
                 rawText_text := text t;
                 rawText_color := color t;
                 rawText_fontSize := Some (fontSize t) |}
  | Table t => RawTable t
  end.

Definition raw_base (s : RawShape) : BaseShape :=
  match s with
  | RawPath p => path_base p
  | RawText t => rawText_base t
  | RawTable t => table_base t
  end.

Definition raw_id (s : RawShape) : string := id (raw_base s).

Inductive ChannelMessage :=
| AddShape (shape : RawShape) (history : HistoryItem) (senderId : string)
| ClearBoard (history : HistoryItem) (senderId : string)
| SyncRequest (senderId : string)
| SyncState (shapes : list RawShape) (history : list HistoryItem) (senderId : string)
| UpdateShape (shape : RawShape) (history : HistoryItem) (senderId : string)
| DeleteShape (shapeId : string) (history : HistoryItem) (senderId : string)
| UndoRedo (shapes : list RawShape) (history : list HistoryItem) (senderId : string).

Definition senderId (m : ChannelMessage) : string :=
  match m with
  | AddShape _ _ s | ClearBoard _ s | SyncRequest s | SyncState _ _ s
  | UpdateShape _ _ s | DeleteShape _ _ s | UndoRedo _ _ s => s
  end.

Definition DEFAULT_FONT_SIZE : Q := 18.
Definition MIN_RESIZE_DIMENSION : Q := 16.
Definition MIN_PATH_DIMENSION : Q := 4.

(** ** Geometry *)

Record ShapeBounds := mkBounds {
  minX : Q; minY : Q; maxX : Q; maxY : Q; width : Q; height : Q
}.

Definition getShapeBounds (shape : Shape) : ShapeBounds :=
  match shape with
  | Text shape =>
      let charWidth := (fontSize shape * (6 # 10))%Q in
      let width :=
        Qmax (charWidth * Qmax (inject_Z (Z.of_nat (String.length (text shape)))) 1)
             (fontSize shape) in
      let height := (fontSize shape * (14 # 10))%Q in
      {| minX := text_x shape;
         minY := (text_y shape - height)%Q;
         maxX := (text_x shape + width)%Q;
         maxY := text_y shape;
         width := width;
         height := height |}
  | Table shape =>
      let width := (cols shape * cellWidth shape)%Q in
      let height := (rows shape * cellHeight shape)%Q in
      {| minX := table_x shape;
         minY := table_y shape;
         maxX := (table_x shape + width)%Q;
         maxY := (table_y shape + height)%Q;
         width := width;
         height := height |}
  | Path shape =>
      match points shape with
      | [] =>
          {| minX := 0; minY := 0; maxX := 0; maxY := 0;
             width := MIN_PATH_DIMENSION; height := MIN_PATH_DIMENSION |}
      | p :: ps =>
          let xs := pt_x <$> ps in
          let ys := pt_y <$> ps in
          let minX := JS.Math_min (pt_x p) xs in
          let maxX := JS.Math_max (pt_x p) xs in
          let minY := JS.Math_min (pt_y p) ys in
          let maxY := JS.Math_max (pt_y p) ys in
          {| minX := minX; minY := minY; maxX := maxX; maxY := maxY;
             width := Qmax (maxX - minX) MIN_PATH_DIMENSION;
             height := Qmax (maxY - minY) MIN_PATH_DIMENSION |}
      end
  end.

(** ** Normalisation of shapes *)

Definition ensureTableCells (shape : TableShape) : TableShape :=
  let legacyCells := cells shape in
  let cells :=
    JS.Array_from (JS.ToLength (rows shape)) (fun rowIndex =>
      let existingRow := default [] (legacyCells ≫= (.!! rowIndex)) in
      JS.Array_from (JS.ToLength (cols shape)) (fun colIndex =>
        default ""%string (existingRow !! colIndex))) in
  {| table_base := table_base shape;
     table_x := table_x shape;
     table_y := table_y shape;
     rows := rows shape;
     cols := cols shape;
     cellWidth := cellWidth shape;
     cellHeight := cellHeight shape;
     table_stroke := table_stroke shape;
     cells := Some cells |}.

(** [table.cells[row]?.[col]], [None] for [undefined]. *)
Definition cellAt (table : TableShape) (row col : nat) : option string :=
  grid ← cells table; cellRow ← grid !! row; cellRow !! col.

Definition normalizeShape (shape : RawShape) : Shape :=
  match shape with
  | RawTable t => Table (ensureTableCells t)
  | RawText t =>
      Text {| text_base := rawText_base t;
              text_x := rawText_x t;
              text_y := rawText_y t;
              text := rawText_text t;
              color := rawText_color t;
              fontSize := match rawText_fontSize t with
                          | Some finite => finite
                          | None => DEFAULT_FONT_SIZE
                          end |}
  | RawPath p => Path p
  end.

Definition normalizeShapes (shapes : list RawShape) : list Shape :=
  normalizeShape <$> shapes.

(** ** The context of one tab

    [shapes] and [history] are the React state; [shapesRef] and
    [historyRef] are the refs the effects keep equal to it; the two stacks
    and the flag are refs written directly by the handlers.  The
    [canUndo]/[canRedo] button flags are display state and are left out. *)

Record Snapshot := mkSnapshot {
  snap_shapes : list Shape;
  snap_history : list HistoryItem
}.

Record Ctx := mkCtx {
  shapes : list Shape;
  history : list HistoryItem;
  shapesRef : list Shape;
  historyRef : list HistoryItem;
  undoStackRef : list Snapshot;
  redoStackRef : list Snapshot;
  isUndoRedoRef : bool
}.

(** What [randomId()] and [getTimestamp()] return for one history entry. *)
Record Fresh := mkFresh { fresh_id : string; fresh_ts : Z }.

(** A handler runs on the context, returns a value and posts messages on
    the broadcast channel. *)
Definition Handler (A : Type) : Type := Ctx -> A * Ctx * list ChannelMessage.

#[global] Instance Handler_ret : MRet Handler := fun A x s => (x, s, []).

#[global] Instance Handler_bind : MBind Handler := fun A B k h s =>
  let '(x, s1, out1) := h s in
  let '(y, s2, out2) := k x s1 in
  (y, s2, out1 ++ out2).

Definition gets {A} (f : Ctx -> A) : Handler A := fun s => (f s, s, []).

Definition modify (f : Ctx -> Ctx) : Handler unit := fun s => (tt, f s, []).

(** [channelRef.current?.postMessage(message)] on an open channel. *)
Definition broadcast (message : ChannelMessage) : Handler unit :=
  fun s => (tt, s, [message]).

Definition setShapes (f : list Shape -> list Shape) : Handler unit :=
  modify (fun s =>
    mkCtx (f (shapes s)) (history s) (shapesRef s) (historyRef s)
          (undoStackRef s) (redoStackRef s) (isUndoRedoRef s)).

Definition setHistory (f : list HistoryItem -> list HistoryItem) : Handler unit :=
  modify (fun s =>
    mkCtx (shapes s) (f (history s)) (shapesRef s) (historyRef s)
          (undoStackRef s) (redoStackRef s) (isUndoRedoRef s)).

Definition setUndoStack (u : list Snapshot) : Handler unit :=
  modify (fun s =>
    mkCtx (shapes s) (history s) (shapesRef s) (historyRef s)
          u (redoStackRef s) (isUndoRedoRef s)).

Definition setRedoStack (r : list Snapshot) : Handler unit :=
  modify (fun s =>
    mkCtx (shapes s) (history s) (shapesRef s) (historyRef s)
          (undoStackRef s) r (isUndoRedoRef s)).

Definition setIsUndoRedo (b : bool) : Handler unit :=
  modify (fun s =>
    mkCtx (shapes s) (history s) (shapesRef s) (historyRef s)
          (undoStackRef s) (redoStackRef s) b).

(** [{ shapes: [...shapesRef.current], history: [...historyRef.current] }] *)
Definition currentSnapshot : Handler Snapshot :=
  gets (fun s => mkSnapshot (shapesRef s) (historyRef s)).

(** The effects on [shapes] and on [history]: the refs take the state. *)
Definition flushEffects (s : Ctx) : Ctx :=
  mkCtx (shapes s) (history s) (shapes s) (history s)
        (undoStackRef s) (redoStackRef s) (isUndoRedoRef s).

(** One event: the handler runs, React renders, the effects run. *)
Definition fire (h : Handler unit) (s : Ctx) : Ctx * list ChannelMessage :=
  let '(_, s', out) := h s in (flushEffects s', out).

(** The refs mirror the state, as they do between two events. *)
Definition rendered (s : Ctx) : Prop :=
  shapesRef s = shapes s /\ historyRef s = history s.

Section Store.

Variable clientId : string.
Variable userName : string.

(** *** Undo/redo manager *)

Definition saveStateForUndo : Handler unit :=
  flag ← gets isUndoRedoRef;
  if flag : bool then setIsUndoRedo false
  else
    current ← currentSnapshot;
    undo ← gets undoStackRef;
    setUndoStack (JS.slice_last 50 (JS.push undo current));;
    setRedoStack [].

Definition pushHistory (description : string) (userOverride : option string)
    (fresh : Fresh) : Handler HistoryItem :=
  let entry :=
    {| h_id := fresh_id fresh;
       timestamp := fresh_ts fresh;
       user := default userName userOverride;
       description := description |} in
  setHistory (fun prev => JS.slice_to 250 (entry :: prev));;
  mret entry.

Definition performUndo (fresh : Fresh) : Handler unit :=
  undo ← gets undoStackRef;
  match JS.pop undo with
  | None => mret tt
  | Some (previousState, rest) =>
      setUndoStack rest;;
      current ← currentSnapshot;
      redo ← gets redoStackRef;
      setRedoStack (JS.push redo current);;
      setIsUndoRedo true;;
      setShapes (fun _ => snap_shapes previousState);;
      setHistory (fun _ => snap_history previousState);;
      pushHistory (userName +:+ " undid last action") None fresh;;
      broadcast (UndoRedo (toRaw <$> snap_shapes previousState)
                          (snap_history previousState) clientId)
  end.

Definition performRedo (fresh : Fresh) : Handler unit :=
  redo ← gets redoStackRef;
  match JS.pop redo with
  | None => mret tt
  | Some (nextState, rest) =>
      setRedoStack rest;;
      current ← currentSnapshot;
      undo ← gets undoStackRef;
      setUndoStack (JS.push undo current);;
      setIsUndoRedo true;;
      setShapes (fun _ => snap_shapes nextState);;
      setHistory (fun _ => snap_history nextState);;
      pushHistory (userName +:+ " redid last action") None fresh;;
      broadcast (UndoRedo (toRaw <$> snap_shapes nextState)
                          (snap_history nextState) clientId)
  end.

(** *** Document store *)

Definition commitShape (shape : Shape) (description : string)
    (fresh : Fresh) : Handler unit :=
  saveStateForUndo;;
  historyEntry ← pushHistory description None fresh;
  let normalizedShape := normalizeShape (toRaw shape) in
  setShapes (fun prev => prev ++ [normalizedShape]);;
  broadcast (AddShape (toRaw normalizedShape) historyEntry clientId).

Definition applyShapeUpdate (updatedShape : Shape) (description : string)
    (skipUndoSnapshot : bool) (fresh : Fresh) : Handler unit :=
  (if skipUndoSnapshot then mret tt else saveStateForUndo);;
  let normalizedShape := normalizeShape (toRaw updatedShape) in
  historyEntry ← pushHistory description None fresh;
  setShapes (fun prev =>
    (fun shape =>
       if decide (shape_id shape = shape_id normalizedShape)
       then normalizedShape else shape) <$> prev);;
  broadcast (UpdateShape (toRaw normalizedShape) historyEntry clientId).

Definition updateTableCell (tableShape : TableShape) (row col : nat)
    (value : string) (fresh : Fresh) : Handler unit :=
  let normalizedTable := ensureTableCells tableShape in
  let sanitizedValue := JS.trim value in
  if decide (cellAt normalizedTable row col = Some sanitizedValue)
  then mret tt
  else
    let updatedCells : option (list (list string)) :=
      imap (fun rowIndex cellRow =>
              if (rowIndex =? row)%nat
              then imap (fun colIndex cellValue =>
                           if (colIndex =? col)%nat
                           then sanitizedValue else cellValue) cellRow
              else cellRow)
        <$> cells normalizedTable in
    let updatedShape :=
      {| table_base := table_base normalizedTable;
         table_x := table_x normalizedTable;
         table_y := table_y normalizedTable;
         rows := rows normalizedTable;
         cols := cols normalizedTable;
         cellWidth := cellWidth normalizedTable;
         cellHeight := cellHeight normalizedTable;
         table_stroke := table_stroke normalizedTable;
         cells := updatedCells |} in
    applyShapeUpdate (Table updatedShape)
      (userName +:+ " updated cell R" +:+ pretty (row + 1)%nat
                +:+ "C" +:+ pretty (col + 1)%nat)
      false fresh.

Definition clearBoard (fresh : Fresh) : Handler unit :=
  shapes ← gets shapes;
  if (length shapes =? 0)%nat then mret tt
  else
    saveStateForUndo;;
    historyEntry ← pushHistory (userName +:+ " cleared the board") None fresh;
    setShapes (fun _ => []);;
    broadcast (ClearBoard historyEntry clientId).

Definition deleteShape (shapeId : string) (description : string)
    (fresh : Fresh) : Handler unit :=
  saveStateForUndo;;
  setShapes (fun prev =>
    filter (fun shape => shape_id shape ≠ shapeId) prev);;
  historyEntry ← pushHistory description None fresh;
  broadcast (DeleteShape shapeId historyEntry clientId).

(** *** Peer sync channel *)

Definition handleMessage (data : option ChannelMessage) : Handler unit :=
  match data with
  | None => mret tt
  | Some payload =>
      if decide (senderId payload = clientId) then mret tt
      else
        match payload with
        | AddShape shape history _ =>
            setShapes (fun prev => prev ++ [normalizeShape shape]);;
            setHistory (fun prev => history :: prev)
        | ClearBoard history _ =>
            setShapes (fun _ => []);;
            setHistory (fun prev => history :: prev)
        | UpdateShape shape history _ =>
            setShapes (fun prev =>
              (fun s =>
                 if decide (shape_id s = raw_id shape)
                 then normalizeShape shape else s) <$> prev);;
            setHistory (fun prev => history :: prev)
        | DeleteShape shapeId history _ =>
            setShapes (fun prev =>
              filter (fun shape => shape_id shape ≠ shapeId) prev);;
            setHistory (fun prev => history :: prev)
        | SyncRequest _ =>
            shapesNow ← gets shapesRef;
            historyNow ← gets historyRef;
            if (length shapesNow =? 0)%nat && (length historyNow =? 0)%nat
            then mret tt
            else broadcast (SyncState (toRaw <$> shapesNow) historyNow clientId)
        | SyncState shapes history _ =>
            setShapes (fun _ => normalizeShapes shapes);;
            setHistory (fun _ => history)
        | UndoRedo shapes history _ =>
            setIsUndoRedo true;;
            setShapes (fun _ => normalizeShapes shapes);;
            setHistory (fun _ => history)
        end
  end.

(** *** Local mutations as data *)

Inductive Mutation :=
| MCommitShape (shape : Shape) (description : string)
| MApplyShapeUpdate (updatedShape : Shape) (description : string)
| MDeleteShape (shapeId : string) (description : string)
| MClearBoard.

Definition mutate (m : Mutation) (fresh : Fresh) : Handler unit :=
  match m with
  | MCommitShape shape description => commitShape shape description fresh
  | MApplyShapeUpdate shape description =>
      applyShapeUpdate shape description false fresh
  | MDeleteShape shapeId description => deleteShape shapeId description fresh
  | MClearBoard => clearBoard fresh
  end.

(** *** Runs of local events *)

(** The mutation reaches its [saveStateForUndo()] call: every mutation
    does, but [clearBoard] on an empty board, which returns before it. *)
Definition captures (s : Ctx) (m : Mutation) : bool :=
  match m with
  | MClearBoard => negb (length (shapes s) =? 0)%nat
  | _ => true
  end.

(** The context after the mutations [ms], one event each. *)
Fixpoint run (ms : list (Mutation * Fresh)) (s : Ctx) : Ctx :=
  match ms with
  | [] => s
  | (m, fresh) :: rest => run rest (fire (mutate m fresh) s).1
  end.

(** The document before each mutation of [ms], oldest first. *)
Fixpoint frames (ms : list (Mutation * Fresh)) (s : Ctx) : list Snapshot :=
  match ms with
  | [] => []
  | (m, fresh) :: rest =>
      mkSnapshot (shapes s) (history s)
        :: frames rest (fire (mutate m fresh) s).1
  end.

(** Every mutation of [ms] reaches its capture. *)
Fixpoint allCapture (ms : list (Mutation * Fresh)) (s : Ctx) : bool :=
  match ms with
  | [] => true
  | (m, fresh) :: rest =>
      captures s m && allCapture rest (fire (mutate m fresh) s).1
  end.

(** [performUndo] (resp. [performRedo]) once per element of [fs]. *)
Definition undos (fs : list Fresh) (s : Ctx) : Ctx :=
  foldl (fun s fresh => (fire (performUndo fresh) s).1) s fs.

Definition redos (fs : list Fresh) (s : Ctx) : Ctx :=
  foldl (fun s fresh => (fire (performRedo fresh) s).1) s fs.

Definition undidEntry (fresh : Fresh) : HistoryItem :=
  mkHistory (fresh_id fresh) (fresh_ts fresh) userName
            (userName +:+ " undid last action").

Definition redidEntry (fresh : Fresh) : HistoryItem :=
  mkHistory (fresh_id fresh) (fresh_ts fresh) userName
            (userName +:+ " redid last action").

End Store.

(** ** Hit testing *)

Definition ERASER_RADIUS : Q := 18.

Definition clamp (value min max : Q) : Q := Qmin (Qmax value min) max.

Definition distanceSquared (a b : Point) : Q :=
  let dx := (pt_x a - pt_x b)%Q in
  let dy := (pt_y a - pt_y b)%Q in
  (dx * dx + dy * dy)%Q.

Definition isPointNearSegment (point segmentStart segmentEnd : Point)
    (threshold : Q) : bool :=
  let lengthSquared := distanceSquared segmentStart segmentEnd in
  if Qeq_bool lengthSquared 0
  then Qle_bool (distanceSquared point segmentStart) (threshold * threshold)
  else
    let t :=
      Qmax 0
        (Qmin 1
           (((pt_x point - pt_x segmentStart) * (pt_x segmentEnd - pt_x segmentStart)
             + (pt_y point - pt_y segmentStart) * (pt_y segmentEnd - pt_y segmentStart))
            / lengthSquared)) in
    let projection :=
      {| pt_x := (pt_x segmentStart + t * (pt_x segmentEnd - pt_x segmentStart))%Q;
         pt_y := (pt_y segmentStart + t * (pt_y segmentEnd - pt_y segmentStart))%Q |} in
    Qle_bool (distanceSquared point projection) (threshold * threshold).

Definition isPointInsideBounds (point : Point) (bounds : ShapeBounds) : bool :=
  Qle_bool (minX bounds) (pt_x point) &&
  Qle_bool (pt_x point) (maxX bounds) &&
  Qle_bool (minY bounds) (pt_y point) &&
  Qle_bool (pt_y point) (maxY bounds).

(** The inner loop of [findShapeAtPoint] on a path: [i] runs from [0] to
    [points.length - 2] and tests the segment from [points[i]] to
    [points[i + 1]]. *)
Fixpoint nearSomeSegment (point : Point) (points : list Point) : bool :=
  match points with
  | a :: (b :: _) as rest =>
      if isPointNearSegment point a b ERASER_RADIUS then true
      else nearSomeSegment point rest
  | _ => false
  end.

(** The test [findShapeAtPoint] applies to one shape. *)
Definition isShapeAtPoint (point : Point) (shape : Shape) : bool :=
  match shape with
  | Table _ | Text _ => isPointInsideBounds point (getShapeBounds shape)
  | Path p => nearSomeSegment point (points p)
  end.

(** The loop of [findShapeAtPoint], entered with [index = n - 1]: it goes
    down to [0] and returns the first shape that passes the test. *)
Fixpoint findShapeBelow (n : nat) (shapes : list Shape) (point : Point)
    : option Shape :=
  match n with
  | O => None
  | S index =>
      match shapes !! index with
      | Some shape =>
          if isShapeAtPoint point shape then Some shape
          else findShapeBelow index shapes point
      | None => findShapeBelow index shapes point
      end
  end.

(** [findShapeAtPoint(point)], on the value of [shapesRef.current]. *)
Definition findShapeAtPoint (shapesRef : list Shape) (point : Point)
    : option Shape :=
  findShapeBelow (length shapesRef) shapesRef point.

(** ** Pointer gestures

    The state the pointer handlers read and write besides the document: the
    [tool], [isDrawing] and [tempPoints] React state, and the two gesture
    refs.  The pen colour and width are the [color] and [strokeWidth]
    state of the component.  The layout of the board (the rectangle
    [boardRef.current.getBoundingClientRect()] returns, [None] when the ref
    is empty) comes with each pointer event. *)

(** The double-quote character of the descriptions. *)
Definition dquote : string := String (Ascii.ascii_of_nat 34) EmptyString.

Definition MIN_TEXT_SIZE : Q := 10.
Definition MAX_TEXT_SIZE : Q := 120.
Definition MIN_TABLE_CELL : Q := 20.

Inductive Tool := Pen | TextTool | TableTool | Move | Resize | Eraser.

Inductive ShapeType := TPath | TText | TTable.

Definition shape_type (s : Shape) : ShapeType :=
  match s with
  | Path _ => TPath
  | Text _ => TText
  | Table _ => TTable
  end.

(** [shape.type] of a shape of the channel. *)
Definition raw_type (s : RawShape) : ShapeType :=
  match s with
  | RawPath _ => TPath
  | RawText _ => TText
  | RawTable _ => TTable
  end.

Record Size := mkSize { size_width : Q; size_height : Q }.

Record DOMRect := mkRect {
  rect_left : Q; rect_top : Q; rect_width : Q; rect_height : Q
}.

Record PointerPosition := mkPosition { point : Point; bounds : Size }.

Record PointerEvent := mkPointer {
  board : option DOMRect;
  clientX : Q;
  clientY : Q
}.

Record DragRef := mkDrag {
  drag_id : string;
  drag_type : ShapeType;
  offset : Point;
  size : Size
}.

Record ResizeRef := mkResize {
  resize_id : string;
  originalShape : Shape;
  startPointer : Point;
  startBounds : ShapeBounds
}.

Record Ui := mkUi {
  tool : Tool;
  ui_color : string;
  ui_strokeWidth : Q;
  isDrawing : bool;
  tempPoints : list Point;
  draggingShapeRef : option DragRef;
  resizingShapeRef : option ResizeRef
}.

Definition cloneShape (shape : Shape) : Shape :=
  match shape with
  | Path p =>
      Path {| path_base := path_base p;
              points := (fun point => mkPoint (pt_x point) (pt_y point)) <$> points p;
              path_stroke := path_stroke p;
              strokeWidth := strokeWidth p |}
  | Table _ => shape
  | Text _ => shape
  end.

Definition getPointerPosition (event : PointerEvent) : option PointerPosition :=
  match board event with
  | None => None
  | Some rect =>
      Some {| point :=
                {| pt_x := clamp (clientX event - rect_left rect) 0 (rect_width rect);
                   pt_y := clamp (clientY event - rect_top rect) 0 (rect_height rect) |};
              bounds :=
                {| size_width := rect_width rect;
                   size_height := rect_height rect |} |}
  end.

Definition getRelativePoint (event : PointerEvent) : option Point :=
  point <$> getPointerPosition event.

(** [{ ...shape, cellWidth, cellHeight }]; on a shape that is no table the
    two fields are read by nothing and the shape is as before. *)
Definition withCellSize (shape : Shape) (w h : Q) : Shape :=
  match shape with
  | Table t =>
      Table {| table_base := table_base t; table_x := table_x t;
               table_y := table_y t; rows := rows t; cols := cols t;
               cellWidth := w; cellHeight := h;
               table_stroke := table_stroke t; cells := cells t |}
  | _ => shape
  end.

(** [{ ...shape, fontSize }], likewise. *)
Definition withFontSize (shape : Shape) (f : Q) : Shape :=
  match shape with
  | Text t =>
      Text {| text_base := text_base t; text_x := text_x t; text_y := text_y t;
              text := text t; color := color t; fontSize := f |}
  | _ => shape
  end.

(** [{ ...shape, points }], likewise. *)
Definition withPoints (shape : Shape) (pts : list Point) : Shape :=
  match shape with
  | Path p =>
      Path {| path_base := path_base p; points := pts;
              path_stroke := path_stroke p; strokeWidth := strokeWidth p |}
  | _ => shape
  end.

(** The updater of the resize branch of [handlePointerMove]. *)
Definition resizeShape (resizeState : ResizeRef) (position : PointerPosition)
    (shape : Shape) : Shape :=
  let deltaX := (pt_x (point position) - pt_x (startPointer resizeState))%Q in
  let deltaY := (pt_y (point position) - pt_y (startPointer resizeState))%Q in
  let nextWidth :=
    Qmax (width (startBounds resizeState) + deltaX) MIN_RESIZE_DIMENSION in
  let nextHeight :=
    Qmax (height (startBounds resizeState) + deltaY) MIN_RESIZE_DIMENSION in
  let baseWidth := Qmax (width (startBounds resizeState)) 1 in
  let baseHeight := Qmax (height (startBounds resizeState)) 1 in
  let scaleX := (nextWidth / baseWidth)%Q in
  let scaleY := (nextHeight / baseHeight)%Q in
  if decide (shape_id shape ≠ resize_id resizeState) then shape
  else
    match originalShape resizeState with
    | Table original =>
        withCellSize shape
          (Qmax (cellWidth original * scaleX) MIN_TABLE_CELL)
          (Qmax (cellHeight original * scaleY) MIN_TABLE_CELL)
    | Text original =>
        let scale := Qmax scaleX scaleY in
        withFontSize shape
          (clamp (fontSize original * scale) MIN_TEXT_SIZE MAX_TEXT_SIZE)
    | Path original =>
        let minX := minX (startBounds resizeState) in
        let minY := minY (startBounds resizeState) in
        let scaledPoints :=
          (fun point =>
             {| pt_x := clamp (minX + (pt_x point - minX) * scaleX) 0
                              (size_width (bounds position));
                pt_y := clamp (minY + (pt_y point - minY) * scaleY) 0
                              (size_height (bounds position)) |})
            <$> points original in
        withPoints shape scaledPoints
    end.

(** The updater of the drag branch of [handlePointerMove]. *)
Definition dragShape (drag : DragRef) (position : PointerPosition)
    (shape : Shape) : Shape :=
  let point := point position in
  let bounds := bounds position in
  if decide (shape_id shape ≠ drag_id drag) then shape
  else
    let nextX := (pt_x point - pt_x (offset drag))%Q in
    let nextY := (pt_y point - pt_y (offset drag))%Q in
    match shape with
    | Table t =>
        let tableWidth := (cols t * cellWidth t)%Q in
        let tableHeight := (rows t * cellHeight t)%Q in
        Table {| table_base := table_base t;
                 table_x := clamp nextX 0 (Qmax (size_width bounds - tableWidth) 0);
                 table_y := clamp nextY 0 (Qmax (size_height bounds - tableHeight) 0);
                 rows := rows t; cols := cols t;
                 cellWidth := cellWidth t; cellHeight := cellHeight t;
                 table_stroke := table_stroke t; cells := cells t |}
    | Text t =>
        Text {| text_base := text_base t;
                text_x := clamp nextX 0 (size_width bounds);
                text_y := clamp nextY 0 (size_height bounds);
                text := text t; color := color t; fontSize := fontSize t |}
    | Path p =>
        let targetMinX :=
          clamp nextX 0 (Qmax (size_width bounds - size_width (size drag)) 0) in
        let targetMinY :=
          clamp nextY 0 (Qmax (size_height bounds - size_height (size drag)) 0) in
        let currentBounds := getShapeBounds shape in
        let deltaX := (targetMinX - minX currentBounds)%Q in
        let deltaY := (targetMinY - minY currentBounds)%Q in
        if Qeq_bool deltaX 0 && Qeq_bool deltaY 0 then shape
        else
          let movedPoints :=
            (fun pt =>
               {| pt_x := clamp (pt_x pt + deltaX) 0 (size_width bounds);
                  pt_y := clamp (pt_y pt + deltaY) 0 (size_height bounds) |})
              <$> points p in
          withPoints shape movedPoints
    end.

Definition setDrawing (ui : Ui) (drawing : bool) (pts : list Point) : Ui :=
  mkUi (tool ui) (ui_color ui) (ui_strokeWidth ui) drawing pts
       (draggingShapeRef ui) (resizingShapeRef ui).

Definition setDragging (ui : Ui) (d : option DragRef) : Ui :=
  mkUi (tool ui) (ui_color ui) (ui_strokeWidth ui) (isDrawing ui) (tempPoints ui)
       d (resizingShapeRef ui).

Definition setResizing (ui : Ui) (r : option ResizeRef) : Ui :=
  mkUi (tool ui) (ui_color ui) (ui_strokeWidth ui) (isDrawing ui) (tempPoints ui)
       (draggingShapeRef ui) r.

Section Pointer.

Variable clientId : string.
Variable userName : string.

(** The text of a number in a template literal, [`${n}`]: it only goes into
    the descriptions of the history log. *)
Variable numberToString : Q -> string.

Definition commitPath (ui : Ui) (points : list Point) (shapeFresh fresh : Fresh)
    : Handler unit :=
  if (length points <? 2)%nat then mret tt
  else
    let shape :=
      Path {| path_base :=
                {| id := fresh_id shapeFresh;
                   createdBy := userName;
                   createdAt := fresh_ts shapeFresh |};
              points := points;
              path_stroke := ui_color ui;
              strokeWidth := ui_strokeWidth ui |} in
    commitShape clientId userName shape
      (userName +:+ " drew a stroke (" +:+ pretty (length points) +:+ " pts)")
      fresh.

Definition handleShapePointerDown (ui : Ui) (event : PointerEvent)
    (shape : Shape) : Handler Ui :=
  match tool ui with
  | Move =>
      match getPointerPosition event with
      | None => mret ui
      | Some position =>
          match draggingShapeRef ui with
          | Some _ => mret ui
          | None =>
              saveStateForUndo;;
              let bounds := getShapeBounds shape in
              let anchor :=
                match shape with
                | Text t => {| pt_x := text_x t; pt_y := text_y t |}
                | _ => {| pt_x := minX bounds; pt_y := minY bounds |}
                end in
              mret (setDragging ui (Some
                {| drag_id := shape_id shape;
                   drag_type := shape_type shape;
                   offset :=
                     {| pt_x := (pt_x (point position) - pt_x anchor)%Q;
                        pt_y := (pt_y (point position) - pt_y anchor)%Q |};
                   size :=
                     {| size_width := width bounds;
                        size_height := height bounds |} |}))
          end
      end
  | _ => mret ui
  end.

Definition handleResizePointerDown (ui : Ui) (event : PointerEvent)
    (shape : Shape) : Handler Ui :=
  match tool ui with
  | Resize =>
      match resizingShapeRef ui with
      | Some _ => mret ui
      | None =>
          match getPointerPosition event with
          | None => mret ui
          | Some position =>
              saveStateForUndo;;
              mret (setResizing ui (Some
                {| resize_id := shape_id shape;
                   originalShape := cloneShape shape;
                   startPointer := point position;
                   startBounds := getShapeBounds shape |}))
          end
      end
  | _ => mret ui
  end.

Definition finalizeShapeDrag (ui : Ui) (fresh : Fresh) : Handler Ui :=
  match draggingShapeRef ui with
  | None => mret ui
  | Some drag =>
      shapesNow ← gets shapesRef;
      let target :=
        List.find (fun shape => bool_decide (shape_id shape = drag_id drag))
                  shapesNow in
      let ui' := setDragging ui None in
      match target with
      | None => mret ui'
      | Some target =>
          let description :=
            match target with
            | Text t => userName +:+ " moved text " +:+ dquote +:+ text t +:+ dquote
            | Table t =>
                userName +:+ " moved " +:+ numberToString (rows t) +:+ "x"
                         +:+ numberToString (cols t) +:+ " table"
            | Path _ => userName +:+ " moved a stroke"
            end in
          applyShapeUpdate clientId userName target description true fresh;;
          mret ui'
      end
  end.

Definition finalizeShapeResize (ui : Ui) (fresh : Fresh) : Handler Ui :=
  match resizingShapeRef ui with
  | None => mret ui
  | Some resizeState =>
      shapesNow ← gets shapesRef;
      let target :=
        List.find (fun shape => bool_decide (shape_id shape = resize_id resizeState))
                  shapesNow in
      let ui' := setResizing ui None in
      match target with
      | None => mret ui'
      | Some target =>
          let description :=
            match target with
            | Text t => userName +:+ " resized text " +:+ dquote +:+ text t +:+ dquote
            | Table t =>
                userName +:+ " resized " +:+ numberToString (rows t) +:+ "x"
                         +:+ numberToString (cols t) +:+ " table"
            | Path _ => userName +:+ " resized a stroke"
            end in
          applyShapeUpdate clientId userName target description true fresh;;
          mret ui'
      end
  end.

Definition handlePointerMove (ui : Ui) (event : PointerEvent) : Handler Ui :=
  match resizingShapeRef ui with
  | Some resizeState =>
      match getPointerPosition event with
      | None => mret ui
      | Some position =>
          setShapes (fun prev => resizeShape resizeState position <$> prev);;
          mret ui
      end
  | None =>
      match draggingShapeRef ui with
      | Some drag =>
          match getPointerPosition event with
          | None => mret ui
          | Some position =>
              setShapes (fun prev => dragShape drag position <$> prev);;
              mret ui
          end
      | None =>
          if negb (isDrawing ui) || negb (if tool ui is Pen then true else false)
          then mret ui
          else
            match getRelativePoint event with
            | None => mret ui
            | Some point =>
                mret (setDrawing ui (isDrawing ui) (tempPoints ui ++ [point]))
            end
      end
  end.

Definition handlePointerUp (ui : Ui) (shapeFresh fresh : Fresh) : Handler Ui :=
  match resizingShapeRef ui with
  | Some _ => finalizeShapeResize ui fresh
  | None =>
      match draggingShapeRef ui with
      | Some _ => finalizeShapeDrag ui fresh
      | None =>
          if negb (isDrawing ui) then mret ui
          else
            (if (2 <=? length (tempPoints ui))%nat
             then commitPath ui (tempPoints ui) shapeFresh fresh
             else mret tt);;
            mret (setDrawing ui false [])
      end
  end.

(** [handlePointerDown] for the move, resize, eraser and pen tools.  The
    branches of the text and table tools read [window.prompt] and are not
    modelled: the result is [None] for them. *)
Definition handlePointerDown (ui : Ui) (event : PointerEvent) (fresh : Fresh)
    : option (Handler Ui) :=
  match tool ui with
  | Move | Resize => Some (mret ui)
  | TextTool | TableTool => None
  | Eraser =>
      Some
        match getRelativePoint event with
        | None => mret ui
        | Some point =>
            shapesNow ← gets shapesRef;
            match findShapeAtPoint shapesNow point with
            | None => mret ui
            | Some targetShape =>
                let description :=
                  match targetShape with
                  | Text t => userName +:+ " erased text " +:+ dquote +:+ text t +:+ dquote
                  | Table t =>
                      userName +:+ " erased a " +:+ numberToString (rows t) +:+ "x"
                               +:+ numberToString (cols t) +:+ " table"
                  | Path _ => userName +:+ " erased a stroke"
                  end in
                deleteShape clientId userName (shape_id targetShape)
                            description fresh;;
                mret ui
            end
        end
  | Pen =>
      Some
        match getRelativePoint event with
        | None => mret ui
        | Some point => mret (setDrawing ui true [point])
        end
  end.

(** One pointer event on the pair of the gesture state and the document:
    the handler runs, React renders, the effects run. *)
Definition fireUi (h : Handler Ui) (s : Ctx) : Ui * Ctx * list ChannelMessage :=
  let '(ui', s', out) := h s in (ui', flushEffects s', out).

(** [handlePointerMove] once for each event of [moves]. *)
Fixpoint pointerMoves (moves : list PointerEvent) (ui : Ui) (s : Ctx) : Ui * Ctx :=
  match moves with
  | [] => (ui, s)
  | event :: rest =>
      let '(ui', s', _) := fireUi (handlePointerMove ui event) s in
      pointerMoves rest ui' s'
  end.

End Pointer.

(** ** Sessions

    The events of one tab: what the user does and what the channel
    delivers.  Each event is one handler followed by the render. *)

Section Session.

Variable clientId : string.
Variable userName : string.
Variable numberToString : Q -> string.

(** The messages [msgs] arrive at this tab, one event each. *)
Definition deliver (msgs : list ChannelMessage) (s : Ctx) : Ctx :=
  foldl (fun s message => (fire (handleMessage clientId (Some message)) s).1)
        s msgs.

Inductive Event :=
| EvMutate (m : Mutation) (fresh : Fresh)
| EvUpdateTableCell (tableShape : TableShape) (row col : nat) (value : string)
                    (fresh : Fresh)
| EvUndo (fresh : Fresh)
| EvRedo (fresh : Fresh)
| EvMessage (data : option ChannelMessage)
| EvPointerDown (event : PointerEvent) (fresh : Fresh)
| EvShapePointerDown (event : PointerEvent) (shape : Shape)
| EvResizePointerDown (event : PointerEvent) (shape : Shape)
| EvPointerMove (event : PointerEvent)
| EvPointerUp (shapeFresh fresh : Fresh).

(** The handler of an event; [None] for a pointer-down with the text or
    the table tool, which is not modelled. *)
Definition handlerOf (ev : Event) (ui : Ui) : option (Handler Ui) :=
  let keep (h : Handler unit) : Handler Ui := h;; mret ui in
  match ev with
  | EvMutate m fresh => Some (keep (mutate clientId userName m fresh))
  | EvUpdateTableCell tableShape row col value fresh =>
      Some (keep (updateTableCell clientId userName tableShape row col value fresh))
  | EvUndo fresh => Some (keep (performUndo clientId userName fresh))
  | EvRedo fresh => Some (keep (performRedo clientId userName fresh))
  | EvMessage data => Some (keep (handleMessage clientId data))
  | EvPointerDown event fresh =>
      handlePointerDown clientId userName numberToString ui event fresh
  | EvShapePointerDown event shape => Some (handleShapePointerDown ui event shape)
  | EvResizePointerDown event shape => Some (handleResizePointerDown ui event shape)
  | EvPointerMove event => Some (handlePointerMove ui event)
  | EvPointerUp shapeFresh fresh =>
      Some (handlePointerUp clientId userName numberToString ui shapeFresh fresh)
  end.

Definition step (ev : Event) (b : Ui * Ctx)
    : option (Ui * Ctx * list ChannelMessage) :=
  h ← handlerOf ev b.1; Some (fireUi h b.2).

(** The events [evs] in order; [None] as soon as one is not modelled. *)
Fixpoint steps (evs : list Event) (b : Ui * Ctx) : option (Ui * Ctx) :=
  match evs with
  | [] => Some b
  | ev :: rest =>
      match step ev b with
      | Some (ui', s', _) => steps rest (ui', s')
      | None => None
      end
  end.

End Session.

(** A shape of this tab that [normalizeShape] leaves as it is: a table with
    its full grid, a text, a path. *)
Definition normalized (shape : Shape) : Prop :=
  normalizeShape (toRaw shape) = shape.

(** Every shape of the document and of every stored snapshot is
    normalised, and the refs mirror the state. *)
Definition wellFormed (s : Ctx) : Prop :=
  rendered s /\
  Forall normalized (shapes s) /\
  Forall (fun snap => Forall normalized (snap_shapes snap))
         (undoStackRef s ++ redoStackRef s).

(** The two stacks hold at most 50 snapshots together. *)
Definition withinBudget (s : Ctx) : Prop :=
  length (undoStackRef s) + length (redoStackRef s) <= 50.

(** The history entry [pushHistory] builds for a description. *)
Definition entryFor (userName description : string) (fresh : Fresh)
    : HistoryItem :=
  mkHistory (fresh_id fresh) (fresh_ts fresh) userName description.

(** ** The outcomes of an event

    The shapes of the board change in four ways: a shape is added at the
    end, the shapes of one id are replaced, the shapes of one id are
    removed, or the board is emptied. *)

Inductive Edited (before : list Shape) : list Shape -> Prop :=
| edited_added (shape : RawShape) :
    Edited before (before ++ [normalizeShape shape])
| edited_replaced (shape : RawShape) :
    Edited before
      ((fun old => if decide (shape_id old = shape_id (normalizeShape shape))
                   then normalizeShape shape else old) <$> before)
| edited_removed (shapeId : string) :
    Edited before (filter (fun shape => shape_id shape ≠ shapeId) before)
| edited_cleared : Edited before [].

(** An event is local unless it is a message of the channel. *)
Definition isLocal (ev : Event) : bool :=
  match ev with
  | EvMessage _ => false
  | _ => true
  end.

(** What a handler may leave of the context [s], before the effects run.
    [local] tells whether the handler belongs to a local event. *)
Inductive Outcome (userName : string) (s : Ctx) : bool -> Ctx -> Prop :=
| outcome_same (local : bool) : Outcome userName s local s
| outcome_captured (local : bool) :
    Outcome userName s local (saveStateForUndo s).1.2
| outcome_moved (local : bool) (f : Shape -> Shape) :
    (forall shape : Shape,
        shape_id (f shape) = shape_id shape /\
        (normalized shape -> normalized (f shape))) ->
    Outcome userName s local
      (mkCtx (f <$> shapes s) (history s) (shapesRef s) (historyRef s)
             (undoStackRef s) (redoStackRef s) (isUndoRedoRef s))
| outcome_logged (local : bool) (k : Ctx) (after : list Shape)
    (entry : HistoryItem) :
    k = s \/ k = (saveStateForUndo s).1.2 ->
    Edited (shapes s) after ->
    user entry = userName ->
    Outcome userName s local
      (mkCtx after (JS.slice_to 250 (entry :: history s))
             (shapesRef s) (historyRef s)
             (undoStackRef k) (redoStackRef k) (isUndoRedoRef k))
| outcome_undone (local : bool) (rest : list Snapshot) (top : Snapshot)
    (entry : HistoryItem) :
    undoStackRef s = rest ++ [top] ->
    user entry = userName ->
    Outcome userName s local
      (mkCtx (snap_shapes top) (JS.slice_to 250 (entry :: snap_history top))
             (shapesRef s) (historyRef s)
             rest (redoStackRef s ++ [mkSnapshot (shapesRef s) (historyRef s)])
             true)
| outcome_redone (local : bool) (rest : list Snapshot) (top : Snapshot)
    (entry : HistoryItem) :
    redoStackRef s = rest ++ [top] ->
    user entry = userName ->
    Outcome userName s local
      (mkCtx (snap_shapes top) (JS.slice_to 250 (entry :: snap_history top))
             (shapesRef s) (historyRef s)
             (undoStackRef s ++ [mkSnapshot (shapesRef s) (historyRef s)]) rest
             true)
| outcome_remote (after : list Shape) (log : list HistoryItem) (flag : bool) :
    (Edited (shapes s) after \/ exists sent, after = normalizeShapes sent) ->
    Outcome userName s false
      (mkCtx after log (shapesRef s) (historyRef s)
             (undoStackRef s) (redoStackRef s) flag).

(** ** Sample values *)

Definition degenerateTable : Shape :=
  Table (mkTable (mkBase "t1" "ann" 0) 10 10 2 3 0 0 "#000000" None).

Definition zeroSizeText : Shape :=
  Text (mkText (mkBase "x1" "ann" 0) 10 10 "note" "#000000" 0).

Definition emptyCtx : Ctx := mkCtx [] [] [] [] [] [] false.

(** The [n]-th stroke of a session: three points, its own id. *)
Definition stroke (n : nat) : Shape :=
  Path (mkPath (mkBase ("s" +:+ pretty n) "ann" (Z.of_nat n))
               [mkPoint 0 0; mkPoint 5 8; mkPoint 9 (inject_Z (Z.of_nat n))]
               "#22d3ee" 4).

Definition freshAt (n : nat) : Fresh :=
  mkFresh ("h" +:+ pretty n) (Z.of_nat n).

(** [n] strokes committed one after the other. *)
Definition commits (n : nat) : list (Mutation * Fresh) :=
  (fun i => (MCommitShape (stroke i) "ann drew a stroke (3 pts)", freshAt i))
    <$> seq 0 n.

Definition freshFrom (start n : nat) : list Fresh := freshAt <$> seq start n.

Definition logEntry (n : nat) : HistoryItem :=
  mkHistory ("e" +:+ pretty n) (Z.of_nat n) "bob" "bob drew a stroke (2 pts)".

(** A board with one stroke and a history log at its cap of 250 entries. *)
Definition fullLogCtx : Ctx :=
  let log := logEntry <$> seq 0 250 in
  mkCtx [stroke 0] log [stroke 0] log [] [] false.

Definition raggedTable : TableShape :=
  mkTable (mkBase "t2" "ann" 0) 0 0 2 2 80 40 "#000000"
          (Some [["a"; "b"; "c"]; ["d"]; ["e"]]).

(** A table of two and a half rows, as the table tool stores it when the
    user answers [2.5] and [3]: the tool clamps the answers to [1..12],
    does not round them, and builds the grid with [Array.from]. *)
Definition fractionalTable : TableShape :=
  let clampedRows := clamp (5 # 2) 1 12 in
  let clampedCols := clamp 3 1 12 in
  mkTable (mkBase "t5" "ann" 0) 10 10 clampedRows clampedCols 80 40 "#000000"
          (Some (JS.Array_from (JS.ToLength clampedRows) (fun _ =>
                   JS.Array_from (JS.ToLength clampedCols) (fun _ =>
                     ""%string)))).

(** ** Sample values of a session with pointer gestures *)

Definition samplePath : PathShape :=
  mkPath (mkBase "s7" "ann" 7) [mkPoint 0 0; mkPoint 5 8; mkPoint 9 3]
         "#22d3ee" 4.

Definition sampleTable : TableShape :=
  mkTable (mkBase "t3" "ann" 3) 10 20 2 2 80 40 "#000000"
          (Some [["a"; "b"]; ["c"; "d"]]).

Definition sampleText : TextShape :=
  mkText (mkBase "x4" "ann" 4) 300 200 "note" "#ffffff" 18.

(** A board with a stroke, a table and a text, and nothing to undo. *)
Definition sampleBoardCtx : Ctx :=
  let doc := [Path samplePath; Table sampleTable; Text sampleText] in
  mkCtx doc [logEntry 1] doc [logEntry 1] [] [] false.

(** The same board after one edit: the empty board can be restored. *)
Definition undoableCtx : Ctx :=
  let doc := [Path samplePath; Table sampleTable; Text sampleText] in
  mkCtx doc [logEntry 1] doc [logEntry 1] [mkSnapshot [] []] [] false.

Definition boardRect : DOMRect := mkRect 0 0 800 600.

Definition pointerAt (x y : Q) : PointerEvent := mkPointer (Some boardRect) x y.

Definition uiWith (t : Tool) : Ui := mkUi t "#22d3ee" 4 false [] None None.

(** The text of a whole number, which is all the sample sessions print. *)
Definition wholeNumberToString (n : Q) : string := pretty (Qfloor n).

(** A session: a stroke is drawn, the table is dragged, a cell is edited,
    a peer adds a shape, the stroke is erased, and the user undoes twice
    and redoes once. *)
Definition sampleEvents : list Event :=
  [EvMutate (MCommitShape (stroke 1) "ann drew a stroke (3 pts)") (freshAt 1);
   EvShapePointerDown (pointerAt 15 25) (Table sampleTable);
   EvPointerMove (pointerAt 100 100);
   EvPointerMove (pointerAt 120 130);
   EvPointerUp (freshAt 2) (freshAt 3);
   EvUpdateTableCell sampleTable 0 1 " z " (freshAt 4);
   EvMessage (Some (AddShape (RawTable raggedTable) (logEntry 9) "tab-B"));
   EvMutate (MDeleteShape "s7" "ann erased a stroke") (freshAt 5);
   EvUndo (freshAt 6);
   EvUndo (freshAt 7);
   EvRedo (freshAt 8)].

(** The same session without the message of the peer. *)
Definition sampleLocalEvents : list Event :=
  filter (fun ev => isLocal ev = true) sampleEvents.

Definition sampleStart : Ui * Ctx := (uiWith Move, sampleBoardCtx).

Definition sampleEnd : Ui * Ctx :=
  default sampleStart
    (steps "tab-A" "ann" wholeNumberToString sampleEvents sampleStart).

Definition sampleLocalEnd : Ui * Ctx :=
  default sampleStart
    (steps "tab-A" "ann" wholeNumberToString sampleLocalEvents sampleStart).

(** * Properties *)

(** ** Table grid completeness *)

Lemma Array_from_length {A} (n : nat) (f : nat -> A) :
  length (JS.Array_from n f) = n.
Proof. unfold JS.Array_from. by rewrite length_fmap, length_seq. Qed.

Lemma Array_from_lookup {A} (n : nat) (f : nat -> A) (i : nat) :
  JS.Array_from n f !! i = if (i <? n)%nat then Some (f i) else None.
Proof.
  unfold JS.Array_from. rewrite list_lookup_fmap.
  destruct (Nat.ltb_spec i n) as [Hlt | Hge].
  - by rewrite lookup_seq_lt.
  - by rewrite lookup_seq_ge.
Qed.

Lemma cellAt_default (shape : TableShape) (r c : nat) :
  default ""%string (default [] (cells shape ≫= (.!! r)) !! c)
  = default ""%string (cellAt shape r c).
Proof.
  unfold cellAt. destruct (cells shape) as [grid |]; simpl; [| done].
  by destruct (grid !! r).
Qed.

Lemma ToLength_whole (n : Q) (k : nat) :
  (n == inject_Z (Z.of_nat k))%Q -> JS.ToLength n = k.
Proof.
  intros Hn. unfold JS.ToLength.
  rewrite (Qfloor_comp _ _ Hn), Qfloor_Z. apply Nat2Z.id.
Qed.

(** What [ensureTableCells] builds for any [rows] and [cols]: the grid
    has [ToLength rows] rows of [ToLength cols] cells, and a cell of it is
    the stored one when there is one and the empty string otherwise. *)
Lemma ensureTableCells_grid (shape : TableShape) :
  exists grid : list (list string),
    cells (ensureTableCells shape) = Some grid /\
    length grid = JS.ToLength (rows shape) /\
    Forall (fun cellRow => length cellRow = JS.ToLength (cols shape)) grid /\
    forall r c : nat,
      cellAt (ensureTableCells shape) r c =
        if ((r <? JS.ToLength (rows shape)) && (c <? JS.ToLength (cols shape)))%nat
        then Some (default ""%string (cellAt shape r c))
        else None.
Proof.
  eexists. split; [reflexivity |].
  split; [apply Array_from_length |]. split.
  - apply Forall_forall. intros cellRow Hin.
    unfold JS.Array_from in Hin at 1.
    apply list_elem_of_fmap in Hin as (r & -> & _).
    apply Array_from_length.
  - intros r c. unfold cellAt at 1. simpl.
    rewrite Array_from_lookup.
    destruct (r <? JS.ToLength (rows shape))%nat; simpl; [| done].
    rewrite Array_from_lookup.
    destruct (c <? JS.ToLength (cols shape))%nat; [| done].
    by rewrite cellAt_default.
Qed.

(** C8, as the claim states it, fails: [rows] is a number and need not be
    whole.  For a table of [rows = 2.5] and [cols = 3], [ensureTableCells]
    keeps [rows = 2.5] and returns a grid of two rows. *)
Lemma ensureTableCells_fractional_rows :
  rows (ensureTableCells fractionalTable) = (5 # 2)%Q /\
  length <$> cells (ensureTableCells fractionalTable) = Some 2%nat /\
  ~ (inject_Z (Z.of_nat 2) == rows (ensureTableCells fractionalTable))%Q.
Proof. split; [reflexivity |]. split; [reflexivity |]. discriminate. Qed.

(** C8 (amended). For a table whose [rows] and [cols] are the whole numbers
    [R] and [C], and any stored grid (absent, ragged, too short or too
    long), [ensureTableCells] returns the same table with a grid of exactly
    [R] rows, each of exactly [C] cells; the cell at an in-range position is
    the stored one when there is one and the empty string otherwise, and
    nothing lies outside the range. *)
Theorem ensureTableCells_complete (shape : TableShape) (R C : nat) :
  (rows shape == inject_Z (Z.of_nat R))%Q ->
  (cols shape == inject_Z (Z.of_nat C))%Q ->
  rows (ensureTableCells shape) = rows shape /\
  cols (ensureTableCells shape) = cols shape /\
  exists grid : list (list string),
    cells (ensureTableCells shape) = Some grid /\
    length grid = R /\
    Forall (fun cellRow => length cellRow = C) grid /\
    forall r c : nat,
      cellAt (ensureTableCells shape) r c =
        if ((r <? R) && (c <? C))%nat
        then Some (default ""%string (cellAt shape r c))
        else None.
Proof.
  intros HR HC. split; [done |]. split; [done |].
  destruct (ensureTableCells_grid shape) as (grid & Hgrid & Hrows & Hcols & Hcell).
  rewrite (ToLength_whole _ _ HR) in Hrows, Hcell.
  rewrite (ToLength_whole _ _ HC) in Hcols, Hcell.
  by exists grid.
Qed.

(** ** Bounding boxes *)

Lemma Qmax_floor (a m : Q) : (m <= Qmax a m)%Q.
Proof. apply Q.le_max_r. Qed.

(** C10, as the claim states it, fails: a table whose cell size is [0] and
    a text whose font size is [0] both get a box of width and height [0]. *)
Lemma getShapeBounds_zero_area :
  (width (getShapeBounds degenerateTable) == 0)%Q /\
  (height (getShapeBounds degenerateTable) == 0)%Q /\
  (width (getShapeBounds zeroSizeText) == 0)%Q /\
  (height (getShapeBounds zeroSizeText) == 0)%Q.
Proof. repeat split. Qed.

(** C10 (amended). [getShapeBounds] clamps the box of a path only: its
    width and height are at least [MIN_PATH_DIMENSION], and both are equal
    to it for a path of no point or of one point.  The box of a table is
    exactly [cols * cellWidth] by [rows * cellHeight]; the box of a text is
    at least [fontSize] wide and exactly [fontSize * 1.4] high. *)
Theorem getShapeBounds_dimensions :
  (forall p : PathShape,
     (MIN_PATH_DIMENSION <= width (getShapeBounds (Path p)))%Q /\
     (MIN_PATH_DIMENSION <= height (getShapeBounds (Path p)))%Q) /\
  (forall base stroke sw,
     width (getShapeBounds (Path (mkPath base [] stroke sw))) = MIN_PATH_DIMENSION /\
     height (getShapeBounds (Path (mkPath base [] stroke sw))) = MIN_PATH_DIMENSION) /\
  (forall base pt stroke sw,
     (width (getShapeBounds (Path (mkPath base [pt] stroke sw))) == MIN_PATH_DIMENSION)%Q /\
     (height (getShapeBounds (Path (mkPath base [pt] stroke sw))) == MIN_PATH_DIMENSION)%Q) /\
  (forall t : TableShape,
     width (getShapeBounds (Table t)) = (cols t * cellWidth t)%Q /\
     height (getShapeBounds (Table t)) = (rows t * cellHeight t)%Q) /\
  (forall t : TextShape,
     (fontSize t <= width (getShapeBounds (Text t)))%Q /\
     height (getShapeBounds (Text t)) = (fontSize t * (14 # 10))%Q).
Proof.
  split; [| split; [| split; [| split]]].
  - intros p. unfold getShapeBounds.
    destruct (points p); simpl; split;
      first [apply Qle_refl | apply Qmax_floor].
  - intros; split; reflexivity.
  - intros base pt stroke sw. simpl. unfold JS.Math_max, JS.Math_min. simpl.
    split; apply Q.max_r; unfold MIN_PATH_DIMENSION.
    + unfold Qminus. rewrite Qplus_opp_r. discriminate.
    + unfold Qminus. rewrite Qplus_opp_r. discriminate.
  - intros; split; reflexivity.
  - intros t. split; [simpl; apply Qmax_floor | reflexivity].
Qed.


(** ** Runs of local events *)

Section StoreProperties.

Variable clientId : string.
Variable userName : string.

#[local] Abbreviation mutate := (mutate clientId userName).
#[local] Abbreviation performUndo := (performUndo clientId userName).
#[local] Abbreviation performRedo := (performRedo clientId userName).
#[local] Abbreviation clearBoard := (clearBoard clientId userName).
#[local] Abbreviation updateTableCell := (updateTableCell clientId userName).
#[local] Abbreviation handleMessage := (handleMessage clientId).
#[local] Abbreviation run := (run clientId userName).
#[local] Abbreviation frames := (frames clientId userName).
#[local] Abbreviation allCapture := (allCapture clientId userName).
#[local] Abbreviation undos := (undos clientId userName).
#[local] Abbreviation redos := (redos clientId userName).
#[local] Abbreviation undidEntry := (undidEntry userName).
#[local] Abbreviation redidEntry := (redidEntry userName).

Lemma fire_mutate_captured (s : Ctx) (m : Mutation) (fresh : Fresh) :
  rendered s -> isUndoRedoRef s = false -> captures s m = true ->
  let s' := (fire (mutate m fresh) s).1 in
  undoStackRef s' =
    JS.slice_last 50 (JS.push (undoStackRef s)
                              (mkSnapshot (shapes s) (history s))) /\
  redoStackRef s' = [] /\
  isUndoRedoRef s' = false /\
  rendered s'.
Proof.
  destruct s as [sh hi shr hir u r flag]. intros [Hs Hh] Hflag Hcap.
  simpl in *. subst.
  destruct m; simpl in *.
  all: try (cbn; repeat split; reflexivity).
  destruct sh; [discriminate |]. cbn. repeat split; reflexivity.
Qed.

Lemma fire_rendered (h : Handler unit) (s : Ctx) : rendered (fire h s).1.
Proof. unfold fire. destruct (h s) as [[? ?] ?]. by split. Qed.

Lemma fire_mutate_suppressed (s : Ctx) (m : Mutation) (fresh : Fresh) :
  isUndoRedoRef s = true -> captures s m = true ->
  let s' := (fire (mutate m fresh) s).1 in
  undoStackRef s' = undoStackRef s /\
  redoStackRef s' = redoStackRef s /\
  isUndoRedoRef s' = false.
Proof.
  destruct s as [sh hi shr hir u r flag]. intros Hflag Hcap.
  simpl in *. subst.
  destruct m; simpl in *.
  all: try (cbn; repeat split; reflexivity).
  destruct sh; [discriminate |]. cbn. repeat split; reflexivity.
Qed.

Lemma pop_snoc {A} (a : list A) (x : A) : JS.pop (a ++ [x]) = Some (x, a).
Proof. unfold JS.pop. by rewrite last_snoc, removelast_last. Qed.

Lemma bind_gets {A B} (f : Ctx -> A) (k : A -> Handler B) (s : Ctx) :
  (gets f ≫= k) s = k (f s) s.
Proof.
  unfold mbind, Handler_bind, gets. by destruct (k (f s) s) as [[? ?] ?].
Qed.

Lemma fire_undo_step (s : Ctx) (fresh : Fresh) (u : list Snapshot) (top : Snapshot) :
  rendered s -> undoStackRef s = u ++ [top] ->
  let s' := (fire (performUndo fresh) s).1 in
  undoStackRef s' = u /\
  redoStackRef s' = redoStackRef s ++ [mkSnapshot (shapes s) (history s)] /\
  isUndoRedoRef s' = true /\
  shapes s' = snap_shapes top /\
  history s' = JS.slice_to 250 (undidEntry fresh :: snap_history top).
Proof.
  destruct s as [sh hi shr hir us r flag]. intros [Hs Hh] Hu.
  simpl in *. subst.
  unfold fire, performUndo. rewrite bind_gets. cbn [undoStackRef].
  rewrite pop_snoc. cbn.
  repeat split; reflexivity.
Qed.

Lemma fire_redo_step (s : Ctx) (fresh : Fresh) (r : list Snapshot) (top : Snapshot) :
  rendered s -> redoStackRef s = r ++ [top] ->
  let s' := (fire (performRedo fresh) s).1 in
  redoStackRef s' = r /\
  undoStackRef s' = undoStackRef s ++ [mkSnapshot (shapes s) (history s)] /\
  isUndoRedoRef s' = true /\
  shapes s' = snap_shapes top /\
  history s' = JS.slice_to 250 (redidEntry fresh :: snap_history top).
Proof.
  destruct s as [sh hi shr hir u rs flag]. intros [Hs Hh] Hr.
  simpl in *. subst.
  unfold fire, performRedo. rewrite bind_gets. cbn [redoStackRef].
  rewrite pop_snoc. cbn.
  repeat split; reflexivity.
Qed.


(** *** Bounded undo stack *)

Lemma slice_last_length {A} (n : nat) (a : list A) :
  length (JS.slice_last n a) = Nat.min n (length a).
Proof. unfold JS.slice_last. rewrite length_drop. lia. Qed.

Lemma slice_last_idem_app {A} (n : nat) (a b : list A) :
  JS.slice_last n (JS.slice_last n a ++ b) = JS.slice_last n (a ++ b).
Proof.
  unfold JS.slice_last.
  rewrite !length_app, length_drop, !drop_app, drop_drop, length_drop.
  f_equal; f_equal; lia.
Qed.

Lemma slice_last_app_short {A} (n : nat) (a b : list A) :
  length b <= n ->
  JS.slice_last n (a ++ b) = JS.slice_last (n - length b) a ++ b.
Proof.
  intros Hb. unfold JS.slice_last.
  rewrite length_app, drop_app.
  replace (length a + length b - n - length a) with 0 by lia.
  rewrite drop_0. f_equal. f_equal. lia.
Qed.

Lemma frames_length (ms : list (Mutation * Fresh)) (s : Ctx) :
  length (frames ms s) = length ms.
Proof.
  revert s. induction ms as [| [m fresh] rest IH]; intros s; simpl; [done |].
  by rewrite IH.
Qed.

Lemma run_captured (ms : list (Mutation * Fresh)) (s : Ctx) :
  ms <> [] -> rendered s -> isUndoRedoRef s = false ->
  allCapture ms s = true ->
  undoStackRef (run ms s) = JS.slice_last 50 (undoStackRef s ++ frames ms s) /\
  redoStackRef (run ms s) = [] /\
  isUndoRedoRef (run ms s) = false /\
  rendered (run ms s).
Proof.
  revert s. induction ms as [| [m fresh] rest IH]; intros s Hne Hr Hflag Hcap;
    [done |].
  simpl in Hcap. apply andb_true_iff in Hcap as [Hm Hrest].
  destruct (fire_mutate_captured s m fresh Hr Hflag Hm) as (Hu & Hredo & Hf & Hr').
  simpl. destruct rest as [| step rest'].
  - simpl. by rewrite Hu.
  - destruct (IH _ ltac:(done) Hr' Hf Hrest) as (IHu & IHredo & IHf & IHr).
    split; [| done].
    rewrite IHu, Hu. unfold JS.push.
    rewrite slice_last_idem_app. by rewrite <- app_assoc.
Qed.

(** C5. From an empty undo stack, 60 local mutations that each capture a
    snapshot leave exactly 50 frames on the undo stack: the documents before
    the last 50 mutations, in order; the 10 frames that are gone are the
    frames of the first 10 mutations, the oldest ones. *)
Theorem undo_stack_bounded (ms : list (Mutation * Fresh)) (s : Ctx) :
  rendered s -> isUndoRedoRef s = false -> undoStackRef s = [] ->
  length ms = 60 -> allCapture ms s = true ->
  length (undoStackRef (run ms s)) = 50 /\
  undoStackRef (run ms s) = drop 10 (frames ms s) /\
  frames ms s = take 10 (frames ms s) ++ undoStackRef (run ms s).
Proof.
  intros Hr Hflag Hu Hlen Hcap.
  assert (Hne : ms <> []) by (intros ->; discriminate).
  destruct (run_captured ms s Hne Hr Hflag Hcap) as (Hstack & _).
  rewrite Hu in Hstack. simpl in Hstack.
  assert (Hdrop : undoStackRef (run ms s) = drop 10 (frames ms s)).
  { rewrite Hstack. unfold JS.slice_last. by rewrite frames_length, Hlen. }
  split; [| split].
  - rewrite Hdrop, length_drop, frames_length, Hlen. reflexivity.
  - exact Hdrop.
  - rewrite Hdrop. symmetry. apply take_drop.
Qed.

(** *** Undo and redo as inverses *)

Lemma undos_spec (fu : list Fresh) :
  forall (fs u : list Snapshot) (s : Ctx),
    rendered s -> undoStackRef s = u ++ fs ->
    length fs = length fu -> fu <> [] ->
    rendered (undos fu s) /\
    undoStackRef (undos fu s) = u /\
    (exists first fresh,
        head fs = Some first /\ last fu = Some fresh /\
        shapes (undos fu s) = snap_shapes first /\
        history (undos fu s) =
          JS.slice_to 250 (undidEntry fresh :: snap_history first)) /\
    (exists cs,
        redoStackRef (undos fu s) =
          redoStackRef s ++ mkSnapshot (shapes s) (history s) :: cs /\
        length cs = length fu - 1).
Proof.
  induction fu as [| f fu' IH]; intros fs u s Hr Hu Hlen Hne; [done |].
  destruct fs as [| top fs' _] using rev_ind; [discriminate |].
  rewrite length_app in Hlen. simpl in Hlen.
  rewrite app_assoc in Hu.
  destruct (fire_undo_step s f (u ++ fs') top Hr Hu)
    as (Hu1 & Hredo1 & _ & Hsh1 & Hhi1).
  pose proof (fire_rendered (performUndo f) s) as Hr1.
  change (undos (f :: fu') s) with (undos fu' (fire (performUndo f) s).1).
  destruct fu' as [| f' fu''].
  - destruct fs' as [| ? ?]; [| simpl in Hlen; lia].
    simpl. rewrite app_nil_r in Hu1.
    split; [done |]. split; [done |]. split.
    + exists top, f. done.
    + exists []. done.
  - destruct (IH fs' u _ Hr1 Hu1 ltac:(lia) ltac:(done))
      as (IHr & IHu & (first & fresh & Hhead & Hlast & IHsh & IHhi) & (cs & IHredo & IHlen)).
    split; [done |]. split; [done |]. split.
    + exists first, fresh. split; [| done].
      destruct fs'; [discriminate | done].
    + eexists. rewrite IHredo, Hredo1, <- app_assoc. split; [reflexivity |].
      simpl in *. lia.
Qed.

Lemma redos_spec (fr : list Fresh) :
  forall (cs r : list Snapshot) (s : Ctx),
    rendered s -> redoStackRef s = r ++ cs ->
    length cs = length fr -> fr <> [] ->
    rendered (redos fr s) /\
    redoStackRef (redos fr s) = r /\
    exists first fresh,
      head cs = Some first /\ last fr = Some fresh /\
      shapes (redos fr s) = snap_shapes first /\
      history (redos fr s) =
        JS.slice_to 250 (redidEntry fresh :: snap_history first).
Proof.
  induction fr as [| f fr' IH]; intros cs r s Hr Hredo Hlen Hne; [done |].
  destruct cs as [| top cs' _] using rev_ind; [discriminate |].
  rewrite length_app in Hlen. simpl in Hlen.
  rewrite app_assoc in Hredo.
  destruct (fire_redo_step s f (r ++ cs') top Hr Hredo)
    as (Hredo1 & _ & _ & Hsh1 & Hhi1).
  pose proof (fire_rendered (performRedo f) s) as Hr1.
  change (redos (f :: fr') s) with (redos fr' (fire (performRedo f) s).1).
  destruct fr' as [| f' fr''].
  - destruct cs' as [| ? ?]; [| simpl in Hlen; lia].
    simpl. rewrite app_nil_r in Hredo1.
    split; [done |]. split; [done |]. exists top, f. done.
  - destruct (IH cs' r _ Hr1 Hredo1 ltac:(lia) ltac:(done))
      as (IHr & IHredo & first & fresh & Hhead & Hlast & IHsh & IHhi).
    split; [done |]. split; [done |].
    exists first, fresh. split; [| done].
    destruct cs'; [discriminate | done].
Qed.

Lemma frames_head (ms : list (Mutation * Fresh)) (s : Ctx) :
  ms <> [] -> head (frames ms s) = Some (mkSnapshot (shapes s) (history s)).
Proof. destruct ms as [| [m fresh] rest]; done. Qed.

(** C2 (amended). From a document with the suppression flag clear, after
    [N] local mutations that each capture a snapshot, with [1 <= N <= 50]:
    [N] calls of [performUndo] give back the shapes the document had before
    the mutations, and a history that is the entry of the last undo put in
    front of the history it had before them, cut to 250 entries; [N] calls
    of [performRedo] after that give back the shapes the document had after
    the mutations, under the entry of the last redo. *)
Theorem undo_redo_inverse (ms : list (Mutation * Fresh)) (fu fr : list Fresh)
    (s0 : Ctx) :
  rendered s0 -> isUndoRedoRef s0 = false -> allCapture ms s0 = true ->
  1 <= length ms <= 50 ->
  length fu = length ms -> length fr = length ms ->
  let s1 := run ms s0 in
  let s2 := undos fu s1 in
  let s3 := redos fr s2 in
  shapes s2 = shapes s0 /\
  (exists fresh, last fu = Some fresh /\
     history s2 = JS.slice_to 250 (undidEntry fresh :: history s0)) /\
  shapes s3 = shapes s1 /\
  (exists fresh, last fr = Some fresh /\
     history s3 = JS.slice_to 250 (redidEntry fresh :: history s1)).
Proof.
  intros Hr Hflag Hcap [Hlo Hhi] Hfu Hfr s1 s2 s3.
  assert (Hne : ms <> []) by (intros ->; simpl in Hlo; lia).
  destruct (run_captured ms s0 Hne Hr Hflag Hcap) as (Hu1 & Hredo1 & _ & Hr1).
  rewrite slice_last_app_short in Hu1 by (rewrite frames_length; lia).
  destruct (undos_spec fu (frames ms s0) _ (run ms s0) Hr1 Hu1)
    as (Hr2 & _ & (first & fresh & Hhead & Hlast & Hsh2 & Hhi2) & (cs & Hredo2 & Hcs)).
  { by rewrite frames_length. }
  { intros ->. simpl in Hfu. lia. }
  rewrite frames_head in Hhead by done. injection Hhead as <-.
  rewrite Hredo1 in Hredo2. simpl in Hredo2.
  destruct (redos_spec fr (mkSnapshot (shapes (run ms s0)) (history (run ms s0)) :: cs)
              [] (undos fu (run ms s0)) Hr2 Hredo2)
    as (_ & _ & first' & fresh' & Hhead' & Hlast' & Hsh3 & Hhi3).
  { simpl. lia. }
  { intros ->. simpl in Hfr. lia. }
  injection Hhead' as <-.
  subst s1 s2 s3. split; [done |]. split; [by exists fresh |].
  split; [done |]. by exists fresh'.
Qed.

(** *** One-shot suppression of the capture *)


(** C1 (amended). After a context applied the [undo-redo] message of a
    peer, which sets the suppression flag and replaces the document, the
    next local mutation pushes no undo frame: both stacks stay as they were
    before the message and the flag is cleared.  The local mutation after
    that one pushes exactly one frame, the document as it was before that
    second mutation. *)
Theorem remote_undo_redo_suppresses_next_capture (s : Ctx)
    (remoteShapes : list RawShape) (remoteHistory : list HistoryItem)
    (sender : string) (m : Mutation) (fresh : Fresh) :
  sender <> clientId ->
  let s1 := (fire (handleMessage
                     (Some (UndoRedo remoteShapes remoteHistory sender))) s).1 in
  captures s1 m = true ->
  let s2 := (fire (mutate m fresh) s1).1 in
  (shapes s1 = normalizeShapes remoteShapes /\ history s1 = remoteHistory /\
   isUndoRedoRef s1 = true) /\
  (undoStackRef s2 = undoStackRef s /\ redoStackRef s2 = redoStackRef s /\
   isUndoRedoRef s2 = false) /\
  forall (m' : Mutation) (fresh' : Fresh),
    captures s2 m' = true ->
    undoStackRef (fire (mutate m' fresh') s2).1 =
      JS.slice_last 50 (JS.push (undoStackRef s)
                                (mkSnapshot (shapes s2) (history s2))).
Proof.
  intros Hsender s1 Hcap s2.
  assert (Hs1 : s1 = mkCtx (normalizeShapes remoteShapes) remoteHistory
                           (normalizeShapes remoteShapes) remoteHistory
                           (undoStackRef s) (redoStackRef s) true).
  { subst s1. unfold fire, handleMessage. cbn [senderId].
    rewrite decide_False by done. reflexivity. }
  assert (Hflag : isUndoRedoRef s1 = true) by (by rewrite Hs1).
  destruct (fire_mutate_suppressed s1 m fresh Hflag Hcap) as (Hu & Hr & Hf).
  split; [by rewrite Hs1 |].
  assert (Hstacks : undoStackRef s2 = undoStackRef s /\
                    redoStackRef s2 = redoStackRef s).
  { subst s2. rewrite Hu, Hr, Hs1. done. }
  split; [destruct Hstacks; done |].
  intros m' fresh' Hcap'.
  destruct (fire_mutate_captured s2 m' fresh' (fire_rendered _ _) Hf Hcap')
    as (Hu' & _).
  rewrite Hu'. destruct Hstacks as [-> _]. reflexivity.
Qed.

(** *** Guards *)

(** C6. [clearBoard] on an empty board, [performUndo] on an empty undo
    stack, [performRedo] on an empty redo stack and [updateTableCell] with
    a value whose trimmed form is already in the addressed cell return the
    context as it was (shapes, history, both stacks and the flag) and post
    no message. *)
Theorem guarded_attempts_are_noops (s : Ctx) (fresh : Fresh) :
  (shapes s = [] -> clearBoard fresh s = (tt, s, [])) /\
  (undoStackRef s = [] -> performUndo fresh s = (tt, s, [])) /\
  (redoStackRef s = [] -> performRedo fresh s = (tt, s, [])) /\
  (forall (tableShape : TableShape) (row col : nat) (value : string),
      cellAt (ensureTableCells tableShape) row col = Some (JS.trim value) ->
      updateTableCell tableShape row col value fresh s = (tt, s, [])).
Proof.
  split; [| split; [| split]].
  - intros Hsh. unfold clearBoard. rewrite bind_gets, Hsh. reflexivity.
  - intros Hu. unfold performUndo. rewrite bind_gets, Hu. reflexivity.
  - intros Hr. unfold performRedo. rewrite bind_gets, Hr. reflexivity.
  - intros tableShape row col value Hcell. unfold updateTableCell.
    rewrite decide_True by exact Hcell. reflexivity.
Qed.

(** C7. A message whose [senderId] is the context's own [clientId] leaves
    the context as it was, flag included, whatever its kind, and no reply
    is posted. *)
Theorem self_echo_ignored (s : Ctx) (payload : ChannelMessage) :
  senderId payload = clientId ->
  handleMessage (Some payload) s = (tt, s, []).
Proof.
  intros Hself. unfold handleMessage. by rewrite decide_True.
Qed.

(** C9. On a [sync-request] of another sender the context posts one
    [sync-state] with its shapes and its history, unless both are empty, in
    which case it posts nothing; its state does not change.  On a
    [sync-state] of another sender it takes the normalised shapes and the
    history of the message in place of its own, whatever they were. *)
Theorem sync_bootstrap (s : Ctx) (sender : string) :
  sender <> clientId -> rendered s ->
  handleMessage (Some (SyncRequest sender)) s =
    (tt, s,
     match shapes s, history s with
     | [], [] => []
     | _, _ => [SyncState (toRaw <$> shapes s) (history s) clientId]
     end) /\
  forall (peerShapes : list RawShape) (peerHistory : list HistoryItem),
    handleMessage (Some (SyncState peerShapes peerHistory sender)) s =
      (tt,
       mkCtx (normalizeShapes peerShapes) peerHistory
             (shapesRef s) (historyRef s)
             (undoStackRef s) (redoStackRef s) (isUndoRedoRef s),
       []).
Proof.
  intros Hsender [Hsh Hhi]. split.
  - unfold handleMessage. cbn [senderId]. rewrite decide_False by done.
    rewrite !bind_gets, Hsh, Hhi.
    destruct (shapes s), (history s); reflexivity.
  - intros peerShapes peerHistory.
    unfold handleMessage. cbn [senderId]. rewrite decide_False by done.
    reflexivity.
Qed.

(** *** The history log *)

Lemma pushHistory_prepends_and_caps (description : string) (fresh : Fresh)
    (s : Ctx) :
  let '(entry, s', out) := pushHistory userName description None fresh s in
  history s' = JS.slice_to 250 (entry :: history s) /\
  head (history s') = Some entry /\
  length (history s') <= 250.
Proof.
  unfold pushHistory. cbn -[JS.slice_to].
  split; [done |]. split; [done |].
  unfold JS.slice_to. cbn [history]. rewrite length_take. lia.
Qed.

End StoreProperties.

(** ** The properties on sample sessions

    Tab ["tab-A"], user ["ann"]; the peer is ["tab-B"]. *)

(** C1, as the claim states it, fails: on an empty context, after the
    [undo-redo] message of a peer, committing one stroke leaves the undo
    stack empty; no frame was pushed, where the claim expects one. *)
Lemma remote_undo_redo_then_mutation_pushes_no_frame :
  let s1 := (fire (handleMessage "tab-A"
                     (Some (UndoRedo [toRaw (stroke 1)] [logEntry 1] "tab-B")))
                  emptyCtx).1 in
  let s2 := (fire (mutate "tab-A" "ann"
                     (MCommitShape (stroke 2) "ann drew a stroke (3 pts)")
                     (freshAt 2))
                  s1).1 in
  shapes s2 = [stroke 1; stroke 2] /\
  undoStackRef s2 = [] /\
  length (undoStackRef s2) <> S (length (undoStackRef emptyCtx)).
Proof. vm_compute. repeat split; discriminate. Qed.

Lemma ensureTableCells_complete_witness :
  ((rows raggedTable == inject_Z (Z.of_nat 2))%Q /\
   (cols raggedTable == inject_Z (Z.of_nat 2))%Q) /\
  rows (ensureTableCells raggedTable) = rows raggedTable /\
  cols (ensureTableCells raggedTable) = cols raggedTable /\
  exists grid : list (list string),
    cells (ensureTableCells raggedTable) = Some grid /\
    length grid = 2 /\
    Forall (fun cellRow => length cellRow = 2) grid /\
    forall r c : nat,
      cellAt (ensureTableCells raggedTable) r c =
        if ((r <? 2) && (c <? 2))%nat
        then Some (default ""%string (cellAt raggedTable r c))
        else None.
Proof.
  assert (HR : (rows raggedTable == inject_Z (Z.of_nat 2))%Q) by reflexivity.
  assert (HC : (cols raggedTable == inject_Z (Z.of_nat 2))%Q) by reflexivity.
  split; [split; assumption |].
  exact (ensureTableCells_complete raggedTable 2 2 HR HC).
Defined.

Lemma remote_undo_redo_suppresses_next_capture_witness :
  "tab-B" <> "tab-A" /\
  let s1 := (fire (handleMessage "tab-A"
                     (Some (UndoRedo [toRaw (stroke 1)] [logEntry 1] "tab-B")))
                  emptyCtx).1 in
  captures s1 MClearBoard = true /\
  let s2 := (fire (mutate "tab-A" "ann" MClearBoard (freshAt 2)) s1).1 in
  undoStackRef s2 = undoStackRef emptyCtx /\
  redoStackRef s2 = redoStackRef emptyCtx /\
  isUndoRedoRef s2 = false.
Proof.
  assert (Hsender : "tab-B" <> "tab-A") by discriminate.
  split; [exact Hsender |]. split; [reflexivity |].
  exact (proj1 (proj2
    (remote_undo_redo_suppresses_next_capture "tab-A" "ann" emptyCtx
       [toRaw (stroke 1)] [logEntry 1] "tab-B" MClearBoard (freshAt 2)
       Hsender eq_refl))).
Defined.

(** C2, as the claim states it, fails in two ways.  After 51 committed
    strokes, 51 undos stop at the document that holds the first stroke: the
    frame of the empty board was dropped from the stack of 50.  And with a
    history log of 250 entries, one commit and one undo leave the undo
    entry on top of the first 249 entries only: the oldest one is lost. *)
Lemma undo_redo_inverse_limits :
  shapes (undos "tab-A" "ann" (freshFrom 100 51)
            (run "tab-A" "ann" (commits 51) emptyCtx)) = [stroke 0] /\
  shapes (undos "tab-A" "ann" (freshFrom 100 51)
            (run "tab-A" "ann" (commits 51) emptyCtx)) <> shapes emptyCtx /\
  history (undos "tab-A" "ann" [freshAt 300]
            (run "tab-A" "ann" [(MCommitShape (stroke 1) "ann drew", freshAt 1)]
               fullLogCtx))
    = undidEntry "ann" (freshAt 300) :: take 249 (history fullLogCtx) /\
  drop 1 (history (undos "tab-A" "ann" [freshAt 300]
            (run "tab-A" "ann" [(MCommitShape (stroke 1) "ann drew", freshAt 1)]
               fullLogCtx)))
    <> history fullLogCtx.
Proof.
  split; [vm_compute; reflexivity |].
  split; [vm_compute; discriminate |].
  split; [vm_compute; reflexivity |].
  intros Heq. apply (f_equal length) in Heq. vm_compute in Heq. discriminate.
Qed.

Lemma undo_redo_inverse_witness :
  let ms := commits 3 in
  let fu := freshFrom 100 3 in
  let fr := freshFrom 200 3 in
  let s1 := run "tab-A" "ann" ms emptyCtx in
  let s2 := undos "tab-A" "ann" fu s1 in
  let s3 := redos "tab-A" "ann" fr s2 in
  (rendered emptyCtx /\ isUndoRedoRef emptyCtx = false /\
   allCapture "tab-A" "ann" ms emptyCtx = true /\
   1 <= length ms <= 50 /\ length fu = length ms /\ length fr = length ms) /\
  shapes s2 = shapes emptyCtx /\
  (exists fresh, last fu = Some fresh /\
     history s2 = JS.slice_to 250 (undidEntry "ann" fresh :: history emptyCtx)) /\
  shapes s3 = shapes s1 /\
  (exists fresh, last fr = Some fresh /\
     history s3 = JS.slice_to 250 (redidEntry "ann" fresh :: history s1)).
Proof.
  assert (Hr : rendered emptyCtx) by (split; reflexivity).
  assert (Hn : 1 <= length (commits 3) <= 50) by (simpl; lia).
  split.
  { split; [exact Hr |]. split; [reflexivity |]. split; [reflexivity |].
    split; [exact Hn |]. split; reflexivity. }
  exact (undo_redo_inverse "tab-A" "ann" (commits 3) (freshFrom 100 3)
           (freshFrom 200 3) emptyCtx Hr eq_refl eq_refl Hn eq_refl eq_refl).
Defined.


Lemma undo_stack_bounded_witness :
  (rendered emptyCtx /\ isUndoRedoRef emptyCtx = false /\
   undoStackRef emptyCtx = [] /\ length (commits 60) = 60 /\
   allCapture "tab-A" "ann" (commits 60) emptyCtx = true) /\
  length (undoStackRef (run "tab-A" "ann" (commits 60) emptyCtx)) = 50 /\
  undoStackRef (run "tab-A" "ann" (commits 60) emptyCtx)
    = drop 10 (frames "tab-A" "ann" (commits 60) emptyCtx) /\
  frames "tab-A" "ann" (commits 60) emptyCtx
    = take 10 (frames "tab-A" "ann" (commits 60) emptyCtx)
      ++ undoStackRef (run "tab-A" "ann" (commits 60) emptyCtx).
Proof.
  assert (Hr : rendered emptyCtx) by (split; reflexivity).
  assert (Hcap : allCapture "tab-A" "ann" (commits 60) emptyCtx = true)
    by (vm_compute; reflexivity).
  split.
  { split; [exact Hr |]. split; [reflexivity |]. split; [reflexivity |].
    split; [reflexivity | exact Hcap]. }
  exact (undo_stack_bounded "tab-A" "ann" (commits 60) emptyCtx
           Hr eq_refl eq_refl eq_refl Hcap).
Defined.

Lemma guarded_attempts_are_noops_witness :
  (shapes emptyCtx = [] /\ undoStackRef emptyCtx = [] /\
   redoStackRef emptyCtx = [] /\
   cellAt (ensureTableCells raggedTable) 1 0 = Some (JS.trim "  d ")) /\
  clearBoard "tab-A" "ann" (freshAt 1) emptyCtx = (tt, emptyCtx, []) /\
  performUndo "tab-A" "ann" (freshAt 1) emptyCtx = (tt, emptyCtx, []) /\
  performRedo "tab-A" "ann" (freshAt 1) emptyCtx = (tt, emptyCtx, []) /\
  updateTableCell "tab-A" "ann" raggedTable 1 0 "  d " (freshAt 1) emptyCtx
    = (tt, emptyCtx, []).
Proof.
  destruct (guarded_attempts_are_noops "tab-A" "ann" emptyCtx (freshAt 1))
    as (Hclear & Hundo & Hredo & Hcell).
  split.
  { split; [reflexivity |]. split; [reflexivity |]. split; reflexivity. }
  split; [exact (Hclear eq_refl) |].
  split; [exact (Hundo eq_refl) |].
  split; [exact (Hredo eq_refl) |].
  exact (Hcell raggedTable 1 0 "  d " eq_refl).
Defined.

Lemma self_echo_ignored_witness :
  senderId (ClearBoard (logEntry 7) "tab-A") = "tab-A" /\
  handleMessage "tab-A" (Some (ClearBoard (logEntry 7) "tab-A")) fullLogCtx
    = (tt, fullLogCtx, []).
Proof.
  split; [reflexivity |].
  exact (self_echo_ignored "tab-A" fullLogCtx
           (ClearBoard (logEntry 7) "tab-A") eq_refl).
Defined.

Lemma sync_bootstrap_witness :
  ("tab-B" <> "tab-A" /\ rendered fullLogCtx) /\
  handleMessage "tab-A" (Some (SyncRequest "tab-B")) fullLogCtx
    = (tt, fullLogCtx,
       [SyncState (toRaw <$> shapes fullLogCtx) (history fullLogCtx) "tab-A"]) /\
  handleMessage "tab-A" (Some (SyncState [RawTable raggedTable] [] "tab-B")) fullLogCtx
    = (tt,
       mkCtx [Table (ensureTableCells raggedTable)] []
             (shapesRef fullLogCtx) (historyRef fullLogCtx) [] [] false,
       []).
Proof.
  assert (Hsender : "tab-B" <> "tab-A") by discriminate.
  assert (Hr : rendered fullLogCtx) by (split; reflexivity).
  destruct (sync_bootstrap "tab-A" fullLogCtx "tab-B" Hsender Hr)
    as [Hrequest Hstate].
  split; [split; assumption |].
  split; [exact Hrequest | exact (Hstate [RawTable raggedTable] [])].
Defined.

(** C4 fails on the code: a context whose log holds 250 entries applies the
    [add-shape] message of a peer; the entry of the message is put in front
    and nothing is cut, so the log holds 251 entries.  The same holds for
    [update-shape], [delete-shape] and [clear-board]. *)
Theorem remote_entry_exceeds_history_cap :
  let entry := logEntry 999 in
  let after (m : ChannelMessage) :=
    history (fire (handleMessage "tab-A" (Some m)) fullLogCtx).1 in
  length (history fullLogCtx) = 250 /\
  after (AddShape (toRaw (stroke 1)) entry "tab-B") = entry :: history fullLogCtx /\
  length (after (AddShape (toRaw (stroke 1)) entry "tab-B")) = 251 /\
  length (after (UpdateShape (toRaw (stroke 0)) entry "tab-B")) = 251 /\
  length (after (DeleteShape "s0" entry "tab-B")) = 251 /\
  length (after (ClearBoard entry "tab-B")) = 251.
Proof. vm_compute. repeat split. Qed.

(** * Further properties of the code *)

(** ** Hit testing *)

Lemma Qsquare_nonneg (q : Q) : (0 <= q * q)%Q.
Proof. destruct q as [n d]. unfold Qle, Qmult. simpl. nia. Qed.

Lemma clamp_spec (value min max : Q) :
  (clamp value min max <= max)%Q /\
  ((min <= max)%Q -> (min <= clamp value min max)%Q) /\
  ((min <= value)%Q -> (value <= max)%Q -> clamp value min max = value).
Proof.
  unfold clamp. split; [apply Q.le_min_r |]. split.
  - intros Hmm. apply Q.min_glb; [apply Q.le_max_r | exact Hmm].
  - intros Hlo Hhi. unfold Qmin, Qmax, GenericMinMax.gmin, GenericMinMax.gmax.
    destruct (value ?= min)%Q eqn:Hc.
    + destruct (value ?= max)%Q eqn:Hc'; try reflexivity.
      apply Qgt_alt in Hc'. exfalso. apply (Qlt_not_le _ _ Hc'), Hhi.
    + apply Qlt_alt in Hc. exfalso. apply (Qlt_not_le _ _ Hc), Hlo.
    + destruct (value ?= max)%Q eqn:Hc'; try reflexivity.
      apply Qgt_alt in Hc'. exfalso. apply (Qlt_not_le _ _ Hc'), Hhi.
Qed.

(** X1. [clamp] never returns more than [max]; when [min <= max] it never
    returns less than [min]; a value already between the two is returned
    as it is. *)
Theorem clamp_range (value min max : Q) :
  (clamp value min max <= max)%Q /\
  ((min <= max)%Q -> (min <= clamp value min max)%Q) /\
  ((min <= value)%Q -> (value <= max)%Q -> clamp value min max = value).
Proof.
  unfold clamp. split; [apply Q.le_min_r |]. split.
  - intros Hmm. apply Q.min_glb; [apply Q.le_max_r | exact Hmm].
  - intros Hlo Hhi. unfold Qmin, Qmax, GenericMinMax.gmin, GenericMinMax.gmax.
    destruct (value ?= min)%Q eqn:Hc.
    + destruct (value ?= max)%Q eqn:Hc'; try reflexivity.
      apply Qgt_alt in Hc'. exfalso. apply (Qlt_not_le _ _ Hc'), Hhi.
    + apply Qlt_alt in Hc. exfalso. apply (Qlt_not_le _ _ Hc), Hlo.
    + destruct (value ?= max)%Q eqn:Hc'; try reflexivity.
      apply Qgt_alt in Hc'. exfalso. apply (Qlt_not_le _ _ Hc'), Hhi.
Qed.

Lemma Math_min_le (xs : list Q) :
  forall x : Q,
    (JS.Math_min x xs <= x)%Q /\
    forall y : Q, y ∈ xs -> (JS.Math_min x xs <= y)%Q.
Proof.
  unfold JS.Math_min.
  induction xs as [| z xs IH]; intros x; simpl.
  - split; [apply Qle_refl |]. intros y Hy. by apply elem_of_nil in Hy.
  - destruct (IH (Qmin x z)) as [Hhead Htail]. split.
    + eapply Qle_trans; [exact Hhead | apply Q.le_min_l].
    + intros y Hy. apply elem_of_cons in Hy as [-> | Hy].
      * eapply Qle_trans; [exact Hhead | apply Q.le_min_r].
      * by apply Htail.
Qed.

Lemma Math_max_ge (xs : list Q) :
  forall x : Q,
    (x <= JS.Math_max x xs)%Q /\
    forall y : Q, y ∈ xs -> (y <= JS.Math_max x xs)%Q.
Proof.
  unfold JS.Math_max.
  induction xs as [| z xs IH]; intros x; simpl.
  - split; [apply Qle_refl |]. intros y Hy. by apply elem_of_nil in Hy.
  - destruct (IH (Qmax x z)) as [Hhead Htail]. split.
    + eapply Qle_trans; [apply Q.le_max_l | exact Hhead].
    + intros y Hy. apply elem_of_cons in Hy as [-> | Hy].
      * eapply Qle_trans; [apply Q.le_max_r | exact Hhead].
      * by apply Htail.
Qed.

(** X2. Every point of a path lies inside the bounding box that
    [getShapeBounds] computes for the path, borders included. *)
Theorem path_bounds_contain_points (p : PathShape) (pt : Point) :
  pt ∈ points p ->
  isPointInsideBounds pt (getShapeBounds (Path p)) = true.
Proof.
  intros Hin. unfold getShapeBounds.
  destruct (points p) as [| p0 ps] eqn:Hpts; [by apply elem_of_nil in Hin |].
  unfold isPointInsideBounds. cbn [minX maxX minY maxY].
  destruct (Math_min_le (pt_x <$> ps) (pt_x p0)) as [Hx0 Hxs].
  destruct (Math_max_ge (pt_x <$> ps) (pt_x p0)) as [HX0 HXs].
  destruct (Math_min_le (pt_y <$> ps) (pt_y p0)) as [Hy0 Hys].
  destruct (Math_max_ge (pt_y <$> ps) (pt_y p0)) as [HY0 HYs].
  rewrite !andb_true_iff, !Qle_bool_iff.
  apply elem_of_cons in Hin as [-> | Hin].
  - done.
  - assert (Hx : pt_x pt ∈ pt_x <$> ps) by (apply list_elem_of_fmap; eauto).
    assert (Hy : pt_y pt ∈ pt_y <$> ps) by (apply list_elem_of_fmap; eauto).
    auto.
Qed.

Lemma distanceSquared_self (a b : Point) :
  (pt_x a == pt_x b)%Q -> (pt_y a == pt_y b)%Q ->
  (distanceSquared a b == 0)%Q.
Proof. intros Hx Hy. unfold distanceSquared. rewrite Hx, Hy. ring. Qed.

Lemma near_of_zero_distance (a b : Point) (threshold : Q) :
  (pt_x a == pt_x b)%Q -> (pt_y a == pt_y b)%Q ->
  Qle_bool (distanceSquared a b) (threshold * threshold) = true.
Proof.
  intros Hx Hy. apply Qle_bool_iff.
  rewrite (distanceSquared_self a b Hx Hy). apply Qsquare_nonneg.
Qed.

Lemma isPointNearSegment_start (a b : Point) (threshold : Q) :
  isPointNearSegment a a b threshold = true.
Proof.
  unfold isPointNearSegment.
  destruct (Qeq_bool (distanceSquared a b) 0) eqn:Hlen.
  - by apply near_of_zero_distance.
  - set (dot := (_ / distanceSquared a b)%Q).
    assert (Hdot : (dot == 0)%Q).
    { subst dot. unfold Qdiv.
      setoid_replace ((pt_x a - pt_x a) * (pt_x b - pt_x a)
                      + (pt_y a - pt_y a) * (pt_y b - pt_y a))%Q with 0%Q using relation Qeq by ring.
      ring. }
    assert (Ht : (Qmax 0 (Qmin 1 dot) == 0)%Q).
    { rewrite Hdot. reflexivity. }
    apply near_of_zero_distance; cbn [pt_x pt_y]; rewrite Ht; ring.
Qed.

Lemma isPointNearSegment_end (a b : Point) (threshold : Q) :
  isPointNearSegment b a b threshold = true.
Proof.
  unfold isPointNearSegment.
  destruct (Qeq_bool (distanceSquared a b) 0) eqn:Hlen.
  - apply Qeq_bool_iff in Hlen. apply Qle_bool_iff.
    setoid_replace (distanceSquared b a) with (distanceSquared a b)
      using relation Qeq by (unfold distanceSquared; ring).
    rewrite Hlen. apply Qsquare_nonneg.
  - apply Qeq_bool_neq in Hlen.
    set (dot := (_ / distanceSquared a b)%Q).
    assert (Hdot : (dot == 1)%Q).
    { subst dot.
      setoid_replace ((pt_x b - pt_x a) * (pt_x b - pt_x a)
                      + (pt_y b - pt_y a) * (pt_y b - pt_y a))%Q
        with (distanceSquared a b) using relation Qeq
        by (unfold distanceSquared; ring).
      field. exact Hlen. }
    assert (Ht : (Qmax 0 (Qmin 1 dot) == 1)%Q).
    { rewrite Hdot. reflexivity. }
    apply near_of_zero_distance; cbn [pt_x pt_y]; rewrite Ht; ring.
Qed.

(** X3. The eraser reaches a stroke at each of its own points: a path of
    at least two points passes the test of [findShapeAtPoint] at every
    point it holds.  A path of fewer than two points has no segment and
    passes it nowhere. *)
Theorem path_hit_at_vertices (p : PathShape) :
  (2 <= length (points p) ->
   forall pt : Point, pt ∈ points p -> isShapeAtPoint pt (Path p) = true) /\
  (length (points p) < 2 ->
   forall pt : Point, isShapeAtPoint pt (Path p) = false).
Proof.
  unfold isShapeAtPoint. split.
  - intros Hlen pt Hin.
    induction (points p) as [| a rest IH]; [simpl in Hlen; lia |].
    destruct rest as [| b rest']; [simpl in Hlen; lia |].
    cbn [nearSomeSegment].
    apply elem_of_cons in Hin as [-> | Hin].
    + by rewrite isPointNearSegment_start.
    + destruct (isPointNearSegment pt a b ERASER_RADIUS) eqn:Hab; [done |].
      destruct rest' as [| c rest''].
      * apply list_elem_of_singleton in Hin as ->.
        by rewrite isPointNearSegment_end in Hab.
      * apply IH; [simpl; lia | exact Hin].
  - intros Hlen pt. destruct (points p) as [| a [| b rest]]; try done.
    simpl in Hlen. lia.
Qed.

Lemma findShapeBelow_spec (shapes : list Shape) (pt : Point) (n : nat) :
  match findShapeBelow n shapes pt with
  | Some shape =>
      exists i : nat,
        i < n /\ shapes !! i = Some shape /\
        isShapeAtPoint pt shape = true /\
        forall (j : nat) (above : Shape),
          i < j < n -> shapes !! j = Some above ->
          isShapeAtPoint pt above = false
  | None =>
      forall (j : nat) (shape : Shape),
        j < n -> shapes !! j = Some shape -> isShapeAtPoint pt shape = false
  end.
Proof.
  induction n as [| index IH]; simpl.
  - intros j shape Hj. lia.
  - destruct (shapes !! index) as [shape |] eqn:Hlook.
    + destruct (isShapeAtPoint pt shape) eqn:Hhit.
      * exists index. repeat split; [lia | done | done |].
        intros j above Hj. lia.
      * destruct (findShapeBelow index shapes pt) as [found |].
        -- destruct IH as (i & Hi & Hfound & Hfhit & Habove).
           exists i. repeat split; [lia | done | done |].
           intros j above Hj Hlookj.
           destruct (decide (j = index)) as [-> | Hne].
           ++ congruence.
           ++ apply (Habove j); [lia | done].
        -- intros j other Hj Hlookj.
           destruct (decide (j = index)) as [-> | Hne].
           ++ congruence.
           ++ apply (IH j); [lia | done].
    + destruct (findShapeBelow index shapes pt) as [found |].
      * destruct IH as (i & Hi & Hfound & Hfhit & Habove).
        exists i. repeat split; [lia | done | done |].
        intros j above Hj Hlookj.
        destruct (decide (j = index)) as [-> | Hne].
        -- congruence.
        -- apply (Habove j); [lia | done].
      * intros j other Hj Hlookj.
        destruct (decide (j = index)) as [-> | Hne].
        -- congruence.
        -- apply (IH j); [lia | done].
Qed.

(** X4. [findShapeAtPoint] returns the topmost shape under the point: the
    shape it returns is in the list and passes the test, and no shape later
    in the list (drawn above it) passes; it returns nothing exactly when no
    shape of the list passes. *)
Theorem findShapeAtPoint_topmost (shapes : list Shape) (pt : Point) :
  match findShapeAtPoint shapes pt with
  | Some shape =>
      exists i : nat,
        shapes !! i = Some shape /\
        isShapeAtPoint pt shape = true /\
        forall (j : nat) (above : Shape),
          i < j -> shapes !! j = Some above ->
          isShapeAtPoint pt above = false
  | None =>
      forall shape : Shape, shape ∈ shapes -> isShapeAtPoint pt shape = false
  end.
Proof.
  unfold findShapeAtPoint.
  pose proof (findShapeBelow_spec shapes pt (length shapes)) as Hspec.
  destruct (findShapeBelow (length shapes) shapes pt) as [shape |].
  - destruct Hspec as (i & Hi & Hlook & Hhit & Habove).
    exists i. repeat split; [done | done |].
    intros j above Hj Hlookj. apply (Habove j); [| done].
    apply lookup_lt_Some in Hlookj. lia.
  - intros shape Hin. apply list_elem_of_lookup in Hin as [j Hj].
    apply (Hspec j); [| done]. by apply lookup_lt_Some in Hj.
Qed.

(** X5. The position [getPointerPosition] reports for a pointer event lies
    on the board: with a board of width and height at least [0], its point
    has [0 <= x <= width] and [0 <= y <= height], wherever the pointer is;
    without a board element there is no position. *)
Theorem getPointerPosition_on_board (event : PointerEvent) :
  match board event with
  | None => getPointerPosition event = None
  | Some rect =>
      exists position : PointerPosition,
        getPointerPosition event = Some position /\
        bounds position = mkSize (rect_width rect) (rect_height rect) /\
        ((0 <= rect_width rect)%Q ->
         (0 <= pt_x (point position) <= rect_width rect)%Q) /\
        ((0 <= rect_height rect)%Q ->
         (0 <= pt_y (point position) <= rect_height rect)%Q)
  end.
Proof.
  unfold getPointerPosition. destruct (board event) as [rect |]; [| done].
  eexists. split; [reflexivity |]. split; [reflexivity |]. cbn [point pt_x pt_y].
  split; intros Hpos.
  - destruct (clamp_spec (clientX event - rect_left rect) 0 (rect_width rect))
      as (Hmax & Hmin & _). split; [by apply Hmin | exact Hmax].
  - destruct (clamp_spec (clientY event - rect_top rect) 0 (rect_height rect))
      as (Hmax & Hmin & _). split; [by apply Hmin | exact Hmax].
Qed.

(** ** Normalisation *)

Lemma Array_from_lookups {A} (d : A) (l : list A) :
  JS.Array_from (length l) (fun i => default d (l !! i)) = l.
Proof.
  apply list_eq. intros i. rewrite Array_from_lookup.
  destruct (Nat.ltb_spec i (length l)) as [Hlt | Hge].
  - destruct (lookup_lt_is_Some_2 l i Hlt) as [x Hx]. by rewrite Hx.
  - symmetry. by apply lookup_ge_None.
Qed.

Lemma Array_from_ext {A} (n : nat) (f g : nat -> A) :
  (forall i, i < n -> f i = g i) -> JS.Array_from n f = JS.Array_from n g.
Proof.
  intros Hfg. apply list_eq. intros i. rewrite !Array_from_lookup.
  destruct (Nat.ltb_spec i n) as [Hlt | Hge]; [| done]. by rewrite Hfg.
Qed.

Lemma ensureTableCells_complete_grid (t : TableShape) (grid : list (list string)) :
  cells t = Some grid ->
  length grid = JS.ToLength (rows t) ->
  Forall (fun cellRow => length cellRow = JS.ToLength (cols t)) grid ->
  ensureTableCells t = t.
Proof.
  intros Hcells Hrows Hcols. destruct t as [b x y r c w h st cs].
  simpl in *. subst cs. unfold ensureTableCells. simpl. f_equal. f_equal.
  transitivity (JS.Array_from (length grid) (fun i => default [] (grid !! i)));
    [| apply Array_from_lookups].
  rewrite Hrows. apply Array_from_ext. intros i Hi.
  destruct (lookup_lt_is_Some_2 grid i ltac:(lia)) as [cellRow Hrow].
  rewrite Hrow. simpl.
  rewrite Forall_lookup in Hcols. rewrite <- (Hcols i cellRow Hrow).
  apply Array_from_lookups.
Qed.

(** X6. A table whose grid already has [rows] rows of [cols] cells each is
    returned by [ensureTableCells] as it is: no cell content is touched. *)
Theorem ensureTableCells_keeps_complete (t : TableShape)
    (grid : list (list string)) :
  cells t = Some grid ->
  (inject_Z (Z.of_nat (length grid)) == rows t)%Q ->
  Forall (fun cellRow => (inject_Z (Z.of_nat (length cellRow)) == cols t)%Q) grid ->
  ensureTableCells t = t /\ normalizeShape (RawTable t) = Table t.
Proof.
  intros Hcells Hrows Hcols.
  assert (Hfix : ensureTableCells t = t).
  { apply (ensureTableCells_complete_grid t grid Hcells).
    - symmetry. apply ToLength_whole. by symmetry.
    - eapply Forall_impl; [exact Hcols |]. intros cellRow Hlen. simpl in Hlen.
      symmetry. apply ToLength_whole. by symmetry. }
  split; [exact Hfix |]. simpl. by rewrite Hfix.
Qed.

Lemma ensureTableCells_idem (t : TableShape) :
  ensureTableCells (ensureTableCells t) = ensureTableCells t.
Proof.
  eapply ensureTableCells_complete_grid; [reflexivity | |].
  - apply Array_from_length.
  - apply Forall_forall. intros cellRow Hin.
    unfold JS.Array_from in Hin at 1.
    apply list_elem_of_fmap in Hin as (r & -> & _).
    apply Array_from_length.
Qed.

Lemma normalizeShape_idem (shape : RawShape) :
  normalizeShape (toRaw (normalizeShape shape)) = normalizeShape shape.
Proof.
  destruct shape as [p | t | t]; simpl; [done | done |].
  by rewrite ensureTableCells_idem.
Qed.

Lemma normalizeShape_id (shape : RawShape) :
  shape_id (normalizeShape shape) = raw_id shape.
Proof. by destruct shape. Qed.

Lemma toRaw_id (shape : Shape) : raw_id (toRaw shape) = shape_id shape.
Proof. by destruct shape. Qed.

Lemma normalizeShape_toRaw_id (shape : Shape) :
  shape_id (normalizeShape (toRaw shape)) = shape_id shape.
Proof. by rewrite normalizeShape_id, toRaw_id. Qed.

(** X7. [normalizeShape] is idempotent and keeps the id and the kind of
    the shape.  It changes nothing in a path, and nothing in a text whose
    [fontSize] is a finite number; a text without such a [fontSize] gets
    [DEFAULT_FONT_SIZE] and keeps its other fields. *)
Theorem normalizeShape_idempotent (shape : RawShape) :
  normalizeShape (toRaw (normalizeShape shape)) = normalizeShape shape /\
  shape_id (normalizeShape shape) = raw_id shape /\
  shape_type (normalizeShape shape) = raw_type shape /\
  (forall p : PathShape, normalizeShape (RawPath p) = Path p) /\
  (forall t : TextShape, normalizeShape (toRaw (Text t)) = Text t) /\
  (forall base x y content colour,
      normalizeShape (RawText (mkRawText base x y content colour None))
      = Text (mkText base x y content colour DEFAULT_FONT_SIZE)).
Proof.
  split; [apply normalizeShape_idem |]. split; [apply normalizeShape_id |].
  split; [by destruct shape |]. split; [done |]. split; [by intros [] | done].
Qed.

(** ** What each handler does to the context *)

Section Effects.

Variable clientId : string.
Variable userName : string.

#[local] Abbreviation entryFor := (entryFor userName).

Lemma saveStateForUndo_run (s : Ctx) :
  saveStateForUndo s =
    (tt,
     if isUndoRedoRef s
     then mkCtx (shapes s) (history s) (shapesRef s) (historyRef s)
                (undoStackRef s) (redoStackRef s) false
     else mkCtx (shapes s) (history s) (shapesRef s) (historyRef s)
                (JS.slice_last 50
                   (undoStackRef s ++ [mkSnapshot (shapesRef s) (historyRef s)]))
                [] false,
     []).
Proof. destruct s as [sh hi shr hir u r []]; reflexivity. Qed.

Lemma commitShape_run (shape : Shape) (description : string) (fresh : Fresh)
    (s : Ctx) :
  commitShape clientId userName shape description fresh s =
    let c := (saveStateForUndo s).1.2 in
    (tt,
     mkCtx (shapes s ++ [normalizeShape (toRaw shape)])
           (JS.slice_to 250 (entryFor description fresh :: history s))
           (shapesRef s) (historyRef s)
           (undoStackRef c) (redoStackRef c) false,
     [AddShape (toRaw (normalizeShape (toRaw shape)))
               (entryFor description fresh) clientId]).
Proof. destruct s as [sh hi shr hir u r []]; reflexivity. Qed.

Lemma applyShapeUpdate_run (shape : Shape) (description : string)
    (skip : bool) (fresh : Fresh) (s : Ctx) :
  applyShapeUpdate clientId userName shape description skip fresh s =
    let c := if skip then s else (saveStateForUndo s).1.2 in
    (tt,
     mkCtx ((fun old =>
               if decide (shape_id old = shape_id (normalizeShape (toRaw shape)))
               then normalizeShape (toRaw shape) else old) <$> shapes s)
           (JS.slice_to 250 (entryFor description fresh :: history s))
           (shapesRef s) (historyRef s)
           (undoStackRef c) (redoStackRef c) (isUndoRedoRef c),
     [UpdateShape (toRaw (normalizeShape (toRaw shape)))
                  (entryFor description fresh) clientId]).
Proof. destruct s as [sh hi shr hir u r []], skip; reflexivity. Qed.

Lemma deleteShape_run (shapeId description : string) (fresh : Fresh) (s : Ctx) :
  deleteShape clientId userName shapeId description fresh s =
    let c := (saveStateForUndo s).1.2 in
    (tt,
     mkCtx (filter (fun shape => shape_id shape ≠ shapeId) (shapes s))
           (JS.slice_to 250 (entryFor description fresh :: history s))
           (shapesRef s) (historyRef s)
           (undoStackRef c) (redoStackRef c) false,
     [DeleteShape shapeId (entryFor description fresh) clientId]).
Proof. destruct s as [sh hi shr hir u r []]; reflexivity. Qed.

Lemma clearBoard_run (fresh : Fresh) (s : Ctx) :
  shapes s <> [] ->
  clearBoard clientId userName fresh s =
    let c := (saveStateForUndo s).1.2 in
    let entry := entryFor (userName +:+ " cleared the board") fresh in
    (tt,
     mkCtx [] (JS.slice_to 250 (entry :: history s))
           (shapesRef s) (historyRef s)
           (undoStackRef c) (redoStackRef c) false,
     [ClearBoard entry clientId]).
Proof.
  destruct s as [[| s0 sh] hi shr hir u r []]; intros Hne; try done;
    reflexivity.
Qed.

Lemma handleMessage_run (payload : ChannelMessage) (s : Ctx) :
  senderId payload <> clientId ->
  handleMessage clientId (Some payload) s =
    match payload with
    | AddShape shape entry _ =>
        (tt, mkCtx (shapes s ++ [normalizeShape shape]) (entry :: history s)
                   (shapesRef s) (historyRef s)
                   (undoStackRef s) (redoStackRef s) (isUndoRedoRef s), [])
    | ClearBoard entry _ =>
        (tt, mkCtx [] (entry :: history s) (shapesRef s) (historyRef s)
                   (undoStackRef s) (redoStackRef s) (isUndoRedoRef s), [])
    | UpdateShape shape entry _ =>
        (tt, mkCtx ((fun old => if decide (shape_id old = raw_id shape)
                                then normalizeShape shape else old) <$> shapes s)
                   (entry :: history s) (shapesRef s) (historyRef s)
                   (undoStackRef s) (redoStackRef s) (isUndoRedoRef s), [])
    | DeleteShape shapeId entry _ =>
        (tt, mkCtx (filter (fun shape => shape_id shape ≠ shapeId) (shapes s))
                   (entry :: history s) (shapesRef s) (historyRef s)
                   (undoStackRef s) (redoStackRef s) (isUndoRedoRef s), [])
    | SyncRequest _ =>
        (tt, s,
         match shapesRef s, historyRef s with
         | [], [] => []
         | _, _ => [SyncState (toRaw <$> shapesRef s) (historyRef s) clientId]
         end)
    | SyncState peerShapes peerHistory _ =>
        (tt, mkCtx (normalizeShapes peerShapes) peerHistory
                   (shapesRef s) (historyRef s)
                   (undoStackRef s) (redoStackRef s) (isUndoRedoRef s), [])
    | UndoRedo peerShapes peerHistory _ =>
        (tt, mkCtx (normalizeShapes peerShapes) peerHistory
                   (shapesRef s) (historyRef s)
                   (undoStackRef s) (redoStackRef s) true, [])
    end.
Proof.
  intros Hsender. unfold handleMessage. rewrite decide_False by done.
  destruct payload; try reflexivity.
  rewrite !bind_gets. destruct s as [sh hi [| ? ?] [| ? ?] u r f]; reflexivity.
Qed.

Lemma performUndo_run (fresh : Fresh) (s : Ctx) (u : list Snapshot)
    (top : Snapshot) :
  undoStackRef s = u ++ [top] ->
  performUndo clientId userName fresh s =
    (tt,
     mkCtx (snap_shapes top)
           (JS.slice_to 250 (undidEntry userName fresh :: snap_history top))
           (shapesRef s) (historyRef s)
           u (redoStackRef s ++ [mkSnapshot (shapesRef s) (historyRef s)]) true,
     [UndoRedo (toRaw <$> snap_shapes top) (snap_history top) clientId]).
Proof.
  intros Hu. unfold performUndo. rewrite bind_gets, Hu, pop_snoc.
  destruct s; reflexivity.
Qed.

Lemma performRedo_run (fresh : Fresh) (s : Ctx) (r : list Snapshot)
    (top : Snapshot) :
  redoStackRef s = r ++ [top] ->
  performRedo clientId userName fresh s =
    (tt,
     mkCtx (snap_shapes top)
           (JS.slice_to 250 (redidEntry userName fresh :: snap_history top))
           (shapesRef s) (historyRef s)
           (undoStackRef s ++ [mkSnapshot (shapesRef s) (historyRef s)]) r true,
     [UndoRedo (toRaw <$> snap_shapes top) (snap_history top) clientId]).
Proof.
  intros Hr. unfold performRedo. rewrite bind_gets, Hr, pop_snoc.
  destruct s; reflexivity.
Qed.

Lemma performUndo_empty (fresh : Fresh) (s : Ctx) :
  undoStackRef s = [] -> performUndo clientId userName fresh s = (tt, s, []).
Proof. intros Hu. unfold performUndo. by rewrite bind_gets, Hu. Qed.

Lemma performRedo_empty (fresh : Fresh) (s : Ctx) :
  redoStackRef s = [] -> performRedo clientId userName fresh s = (tt, s, []).
Proof. intros Hr. unfold performRedo. by rewrite bind_gets, Hr. Qed.

Lemma clearBoard_empty (fresh : Fresh) (s : Ctx) :
  shapes s = [] -> clearBoard clientId userName fresh s = (tt, s, []).
Proof. intros Hs. unfold clearBoard. by rewrite bind_gets, Hs. Qed.

End Effects.

(** ** Replication between two tabs *)

(** X8. A local mutation reaches a peer unchanged.  When tab A runs a
    mutation and tab B, which shows the same shapes, takes the messages A
    posts, B shows the shapes A shows.  A posts at most one message, and
    B's undo stack, redo stack and flag are not touched.  When the mutation
    is not the guarded no-op, both put the same entry in front of their
    history; A then cuts its log to 250 entries, B does not. *)
Theorem mutation_replicates (idA idB userA : string) (a b : Ctx)
    (m : Mutation) (fresh : Fresh) :
  idA <> idB -> shapes b = shapes a ->
  let a' := (fire (mutate idA userA m fresh) a).1 in
  let out := (fire (mutate idA userA m fresh) a).2 in
  let b' := deliver idB out b in
  shapes b' = shapes a' /\
  length out <= 1 /\
  (undoStackRef b' = undoStackRef b /\ redoStackRef b' = redoStackRef b /\
   isUndoRedoRef b' = isUndoRedoRef b) /\
  (captures a m = true ->
   exists entry : HistoryItem,
     history a' = JS.slice_to 250 (entry :: history a) /\
     history b' = entry :: history b).
Proof.
  intros Hid Hshapes. unfold deliver, fire, mutate.
  destruct m as [shape d | shape d | sid d |].
  - rewrite commitShape_run. cbn [fst snd foldl]. unfold fire.
    rewrite handleMessage_run by done. cbn -[JS.slice_to].
    rewrite normalizeShape_idem, Hshapes. repeat split; try done. eauto.
  - rewrite applyShapeUpdate_run. cbn [fst snd foldl]. unfold fire.
    rewrite handleMessage_run by done. cbn -[JS.slice_to].
    rewrite normalizeShape_idem, toRaw_id, Hshapes.
    repeat split; try done. eauto.
  - rewrite deleteShape_run. cbn [fst snd foldl]. unfold fire.
    rewrite handleMessage_run by done. cbn -[JS.slice_to].
    rewrite Hshapes. repeat split; try done. eauto.
  - destruct (shapes a) as [| s0 rest] eqn:Hsh.
    + rewrite clearBoard_empty by done. cbn. rewrite Hshapes, Hsh.
      repeat split; try done; try lia.
    + rewrite clearBoard_run by (rewrite Hsh; done).
      cbn [fst snd foldl]. unfold fire.
      rewrite handleMessage_run by done. cbn -[JS.slice_to].
      repeat split; try done. eauto.
Qed.

(** X9. An undo or a redo reaches a peer as a whole document.  When tab A
    undoes (or redoes) and finds a frame, it posts one [undo-redo] message;
    tab B then shows the normalised shapes of that frame and takes the
    history of that frame as its own, whatever B held.  A's own history has
    one entry more, the "undid (redid) last action" line, which B does not
    get.  B's stacks are not touched and B's suppression flag is set. *)
Theorem undo_redo_replicates (idA idB userA : string) (a b : Ctx)
    (fresh : Fresh) (redo : bool) (rest : list Snapshot) (top : Snapshot) :
  idA <> idB ->
  (if redo then redoStackRef a else undoStackRef a) = rest ++ [top] ->
  let h := if redo then performRedo idA userA fresh
           else performUndo idA userA fresh in
  let a' := (fire h a).1 in
  let out := (fire h a).2 in
  let b' := deliver idB out b in
  out = [UndoRedo (toRaw <$> snap_shapes top) (snap_history top) idA] /\
  shapes a' = snap_shapes top /\
  shapes b' = normalizeShapes (toRaw <$> snap_shapes top) /\
  history b' = snap_history top /\
  history a' =
    JS.slice_to 250
      ((if redo then redidEntry userA fresh else undidEntry userA fresh)
         :: snap_history top) /\
  undoStackRef b' = undoStackRef b /\ redoStackRef b' = redoStackRef b /\
  isUndoRedoRef b' = true.
Proof.
  intros Hid Hstack. unfold deliver, fire.
  destruct redo.
  - rewrite (performRedo_run idA userA fresh a rest top Hstack).
    cbn [fst snd foldl]. unfold fire.
    rewrite handleMessage_run by done. done.
  - rewrite (performUndo_run idA userA fresh a rest top Hstack).
    cbn [fst snd foldl]. unfold fire.
    rewrite handleMessage_run by done. done.
Qed.

(** X10. Bootstrap of a late joiner.  Tab B posts [sync-request]; tab A,
    between two events, answers with one [sync-state] when it holds a shape
    or a history entry, and B, taking that answer, shows A's shapes
    normalised and holds A's history, whatever B held before; B's stacks
    and flag are as they were.  When A holds nothing it does not answer and
    B stays as it is.  A itself does not change. *)
Theorem sync_handshake (idA idB : string) (a b : Ctx) :
  idA <> idB -> rendered a ->
  let a' := (fire (handleMessage idA (Some (SyncRequest idB))) a).1 in
  let reply := (fire (handleMessage idA (Some (SyncRequest idB))) a).2 in
  let b' := deliver idB reply b in
  a' = flushEffects a /\
  match shapes a, history a with
  | [], [] => reply = [] /\ b' = b
  | _, _ =>
      reply = [SyncState (toRaw <$> shapes a) (history a) idA] /\
      shapes b' = normalizeShapes (toRaw <$> shapes a) /\
      history b' = history a /\
      undoStackRef b' = undoStackRef b /\ redoStackRef b' = redoStackRef b /\
      isUndoRedoRef b' = isUndoRedoRef b
  end.
Proof.
  intros Hid [Hsh Hhi]. unfold deliver, fire.
  rewrite handleMessage_run by (simpl; congruence).
  rewrite Hsh, Hhi. cbn [fst snd].
  split; [done |].
  destruct (shapes a) as [| s0 sh], (history a) as [| h0 hi]; cbn [foldl].
  - done.
  - unfold fire. rewrite handleMessage_run by done. done.
  - unfold fire. rewrite handleMessage_run by done. done.
  - unfold fire. rewrite handleMessage_run by done. done.
Qed.

(** ** The document store, operation by operation *)

Section StoreOperations.

Variable clientId : string.
Variable userName : string.

#[local] Abbreviation entryFor := (entryFor userName).
#[local] Abbreviation commitShape := (commitShape clientId userName).
#[local] Abbreviation applyShapeUpdate := (applyShapeUpdate clientId userName).
#[local] Abbreviation deleteShape := (deleteShape clientId userName).
#[local] Abbreviation updateTableCell := (updateTableCell clientId userName).
#[local] Abbreviation performUndo := (performUndo clientId userName).
#[local] Abbreviation performRedo := (performRedo clientId userName).
#[local] Abbreviation handleMessage := (handleMessage clientId).

Lemma filter_all_pass (P : Shape -> Prop) `{forall x, Decision (P x)}
    (l : list Shape) :
  Forall P l -> filter P l = l.
Proof.
  induction 1 as [| x l Hx _ IH]; [done |].
  by rewrite filter_cons_True, IH.
Qed.

(** X11. [deleteShape] leaves no shape with the given id on the board and
    keeps every other shape; it posts one [delete-shape] message and logs
    one entry even when no shape has that id, in which case the shapes are
    as before.  Committing a shape whose id is new on the board and then
    deleting that id gives back the shapes the board had. *)
Theorem deleteShape_removes_id (shapeId description : string) (fresh : Fresh)
    (s : Ctx) :
  let s' := (fire (deleteShape shapeId description fresh) s).1 in
  let out := (fire (deleteShape shapeId description fresh) s).2 in
  Forall (fun shape => shape_id shape ≠ shapeId) (shapes s') /\
  (forall shape : Shape,
      shape_id shape ≠ shapeId -> shape ∈ shapes s' <-> shape ∈ shapes s) /\
  out = [DeleteShape shapeId (entryFor description fresh) clientId] /\
  head (history s') = Some (entryFor description fresh) /\
  (Forall (fun shape => shape_id shape ≠ shapeId) (shapes s) ->
   shapes s' = shapes s) /\
  (forall (shape : Shape) (d : string) (f : Fresh),
      shape_id shape = shapeId ->
      Forall (fun old => shape_id old ≠ shapeId) (shapes s) ->
      shapes (fire (deleteShape shapeId description fresh)
                   (fire (commitShape shape d f) s).1).1 = shapes s).
Proof.
  unfold fire. rewrite deleteShape_run. cbn [fst snd flushEffects shapes history].
  split; [| split; [| split; [| split; [| split]]]].
  - apply Forall_forall. intros shape Hin.
    by apply list_elem_of_filter in Hin as [Hid _].
  - intros shape Hid. rewrite list_elem_of_filter. tauto.
  - done.
  - done.
  - apply filter_all_pass.
  - intros shape d f Hid Hall.
    rewrite commitShape_run, deleteShape_run.
    cbn [fst snd flushEffects shapes].
    rewrite filter_app, filter_all_pass by done.
    rewrite filter_cons_False, filter_nil, app_nil_r; [done |].
    rewrite normalizeShape_toRaw_id. intros Hne. by apply Hne.
Qed.

Lemma replace_by_id_ids (new : Shape) (l : list Shape) :
  shape_id <$> ((fun old => if decide (shape_id old = shape_id new)
                            then new else old) <$> l)
  = shape_id <$> l.
Proof.
  rewrite <- list_fmap_compose. apply list_fmap_ext. intros i old _. simpl.
  by destruct (decide (shape_id old = shape_id new)) as [-> |].
Qed.

Lemma replace_by_id_absent (new : Shape) (l : list Shape) :
  Forall (fun old => shape_id old ≠ shape_id new) l ->
  (fun old => if decide (shape_id old = shape_id new) then new else old) <$> l
  = l.
Proof.
  induction 1 as [| x l Hx _ IH]; [done |].
  rewrite fmap_cons, IH. by rewrite decide_False.
Qed.

(** X12. [applyShapeUpdate] replaces by id and nothing else: the board
    keeps its number of shapes and their ids in order, every shape with the
    id of the update becomes the normalised update, and the others stay.
    An update whose id is not on the board changes no shape, and is logged
    and posted all the same. *)
Theorem applyShapeUpdate_replaces_by_id (updatedShape : Shape)
    (description : string) (skip : bool) (fresh : Fresh) (s : Ctx) :
  let s' := (fire (applyShapeUpdate updatedShape description skip fresh) s).1 in
  let out := (fire (applyShapeUpdate updatedShape description skip fresh) s).2 in
  shape_id <$> shapes s' = shape_id <$> shapes s /\
  (forall (i : nat) (old : Shape),
      shapes s !! i = Some old ->
      shapes s' !! i =
        Some (if decide (shape_id old = shape_id updatedShape)
              then normalizeShape (toRaw updatedShape) else old)) /\
  out = [UpdateShape (toRaw (normalizeShape (toRaw updatedShape)))
                     (entryFor description fresh) clientId] /\
  head (history s') = Some (entryFor description fresh) /\
  (Forall (fun old => shape_id old ≠ shape_id updatedShape) (shapes s) ->
   shapes s' = shapes s).
Proof.
  unfold fire. rewrite applyShapeUpdate_run.
  cbn [fst snd flushEffects shapes history].
  split; [| split; [| split; [| split]]].
  - apply replace_by_id_ids.
  - intros i old Hold. rewrite list_lookup_fmap, Hold. simpl.
    by rewrite normalizeShape_toRaw_id.
  - done.
  - done.
  - intros Hall. apply replace_by_id_absent.
    by rewrite normalizeShape_toRaw_id.
Qed.

(** X13. Messages of peers are applied, never answered and never
    undoable.  For every message, [handleMessage] leaves the undo stack
    and the redo stack as they were; it posts nothing, except the one
    [sync-state] under its own id that answers a [sync-request]; and it
    sets the suppression flag on [undo-redo] only and clears it never. *)
Theorem handleMessage_keeps_stacks (data : option ChannelMessage) (s : Ctx) :
  let s' := (handleMessage data s).1.2 in
  let out := (handleMessage data s).2 in
  undoStackRef s' = undoStackRef s /\
  redoStackRef s' = redoStackRef s /\
  (out = [] \/
   exists sender : string,
     data = Some (SyncRequest sender) /\ sender ≠ clientId /\
     out = [SyncState (toRaw <$> shapesRef s) (historyRef s) clientId]) /\
  (isUndoRedoRef s' = isUndoRedoRef s \/
   exists peerShapes peerHistory sender,
     data = Some (UndoRedo peerShapes peerHistory sender) /\
     isUndoRedoRef s' = true).
Proof.
  destruct data as [payload |]; [| repeat split; auto].
  destruct (decide (senderId payload = clientId)) as [Hself | Hpeer].
  - unfold handleMessage. rewrite decide_True by done.
    repeat split; auto.
  - rewrite handleMessage_run by done.
    destruct payload as [? ? sender | ? sender | sender | ? ? sender
                        | ? ? sender | ? ? sender | ? ? sender];
      cbn [fst snd undoStackRef redoStackRef isUndoRedoRef];
      (split; [done |]); (split; [done |]).
    all: try (split; [by left |]).
    all: try (by left).
    + split; [| by left].
      destruct (shapesRef s) as [| ? ?] eqn:Hs, (historyRef s) as [| ? ?] eqn:Hh;
        [by left | right; exists sender; rewrite ?Hs, ?Hh; done ..].
    + right. eauto.
Qed.

(** X14. An undo followed by a redo gives back the shapes.  From a context
    between two events whose undo stack is not empty, [performUndo] then
    [performRedo] restore the shapes and the redo stack; the history is the
    one before the undo under the "redid last action" entry, cut to 250;
    and the frame the redo puts back on the undo stack is the frame the
    undo took, with the "undid last action" entry added to its history. *)
Theorem undo_then_redo (fresh fresh' : Fresh) (s : Ctx)
    (rest : list Snapshot) (top : Snapshot) :
  rendered s -> undoStackRef s = rest ++ [top] ->
  let s1 := (fire (performUndo fresh) s).1 in
  let s2 := (fire (performRedo fresh') s1).1 in
  shapes s1 = snap_shapes top /\
  shapes s2 = shapes s /\
  history s2 = JS.slice_to 250 (redidEntry userName fresh' :: history s) /\
  redoStackRef s2 = redoStackRef s /\
  undoStackRef s2 =
    rest ++ [mkSnapshot (snap_shapes top)
               (JS.slice_to 250 (undidEntry userName fresh :: snap_history top))].
Proof.
  intros [Hsh Hhi] Hu. unfold fire.
  rewrite (performUndo_run clientId userName fresh s rest top Hu).
  cbn [fst snd flushEffects shapes history undoStackRef redoStackRef isUndoRedoRef].
  erewrite performRedo_run by reflexivity.
  cbn [fst snd flushEffects shapes history undoStackRef redoStackRef
       snap_shapes snap_history shapesRef historyRef].
  by rewrite Hsh, Hhi.
Qed.

End StoreOperations.

(** ** Cell edits *)

Section CellEdits.

Variable clientId : string.
Variable userName : string.

#[local] Abbreviation entryFor := (entryFor userName).
#[local] Abbreviation updateTableCell := (updateTableCell clientId userName).

Lemma written_grid_lookup (row col : nat) (v : string)
    (grid : list (list string)) (r c : nat) :
  (cellRow ← imap (fun rowIndex cellRow =>
                     if (rowIndex =? row)%nat
                     then imap (fun colIndex cellValue =>
                                  if (colIndex =? col)%nat then v else cellValue)
                               cellRow
                     else cellRow) grid !! r;
   cellRow !! c)
  = if ((r =? row) && (c =? col))%nat
    then (fun _ => v) <$> (cellRow ← grid !! r; cellRow !! c)
    else cellRow ← grid !! r; cellRow !! c.
Proof.
  rewrite list_lookup_imap.
  destruct (grid !! r) as [cellRow |]; simpl; [| by destruct (_ && _)].
  destruct (r =? row)%nat; simpl; [| done].
  rewrite list_lookup_imap.
  destruct (cellRow !! c) as [cellValue |]; simpl; by destruct (c =? col)%nat.
Qed.

Lemma written_grid_complete (row col : nat) (v : string)
    (grid : list (list string)) (n m : nat) :
  length grid = n ->
  Forall (fun cellRow => length cellRow = m) grid ->
  length (imap (fun rowIndex cellRow =>
                  if (rowIndex =? row)%nat
                  then imap (fun colIndex cellValue =>
                               if (colIndex =? col)%nat then v else cellValue)
                            cellRow
                  else cellRow) grid) = n /\
  Forall (fun cellRow => length cellRow = m)
    (imap (fun rowIndex cellRow =>
             if (rowIndex =? row)%nat
             then imap (fun colIndex cellValue =>
                          if (colIndex =? col)%nat then v else cellValue)
                       cellRow
             else cellRow) grid).
Proof.
  intros Hn Hm. split; [by rewrite length_imap |].
  apply Forall_lookup. intros i cellRow Hi.
  rewrite list_lookup_imap in Hi.
  destruct (grid !! i) as [old |] eqn:Hold; [| done].
  simpl in Hi. injection Hi as <-.
  rewrite Forall_lookup in Hm. specialize (Hm i old Hold).
  destruct (i =? row)%nat; [by rewrite length_imap | done].
Qed.

(** X15. A cell edit that changes something writes one cell.  When the
    trimmed value is not what the addressed cell of the normalised table
    holds, [updateTableCell] posts one [update-shape] message with a table
    of the same rows and columns in which the addressed cell, if the grid
    has it, holds the trimmed value and every other cell holds what the
    normalised table held; the board takes that table in place of every
    shape with its id, and one entry is logged.  When the address is
    outside the grid no cell changes, and the update is logged and posted
    all the same. *)
Theorem updateTableCell_writes_cell (t : TableShape) (row col : nat)
    (value : string) (fresh : Fresh) (s : Ctx) :
  cellAt (ensureTableCells t) row col <> Some (JS.trim value) ->
  exists (t' : TableShape) (entry : HistoryItem),
    (updateTableCell t row col value fresh s).2 =
      [UpdateShape (RawTable t') entry clientId] /\
    shapes (updateTableCell t row col value fresh s).1.2 =
      (fun old => if decide (shape_id old = id (table_base t))
                  then Table t' else old) <$> shapes s /\
    head (history (updateTableCell t row col value fresh s).1.2) = Some entry /\
    table_base t' = table_base t /\ rows t' = rows t /\ cols t' = cols t /\
    forall r c : nat,
      cellAt t' r c =
        if ((r =? row) && (c =? col))%nat
        then (fun _ => JS.trim value) <$> cellAt (ensureTableCells t) r c
        else cellAt (ensureTableCells t) r c.
Proof.
  intros Hdiff. unfold updateTableCell.
  rewrite decide_False by exact Hdiff.
  cbv zeta. rewrite applyShapeUpdate_run. cbn [toRaw].
  simpl (cells (ensureTableCells t)). cbn [fmap option_fmap option_map].
  set (grid := JS.Array_from (JS.ToLength (rows t)) _).
  set (grid' := imap _ grid).
  set (t' := mkTable _ _ _ _ _ _ _ _ (Some grid')).
  assert (Hgrid : length grid = JS.ToLength (rows t) /\
                  Forall (fun cellRow => length cellRow = JS.ToLength (cols t))
                         grid).
  { split; [apply Array_from_length |].
    apply Forall_forall. intros cellRow Hin. subst grid.
    unfold JS.Array_from in Hin at 1.
    apply list_elem_of_fmap in Hin as (r & -> & _). apply Array_from_length. }
  destruct Hgrid as [Hrows Hcols].
  destruct (written_grid_complete row col (JS.trim value) grid _ _ Hrows Hcols)
    as [Hrows' Hcols'].
  assert (Hfix : normalizeShape (RawTable t') = Table t').
  { simpl. f_equal.
    by apply (ensureTableCells_complete_grid t' grid'). }
  rewrite Hfix.
  exists t', (entryFor (userName +:+ " updated cell R" +:+ pretty (row + 1)
                                   +:+ "C" +:+ pretty (col + 1)) fresh).
  cbn [fst snd shapes history].
  split; [done |]. split; [done |]. split; [done |].
  split; [done |]. split; [done |]. split; [done |].
  intros r c. unfold cellAt at 1. cbn [cells t' mbind option_bind].
  apply written_grid_lookup.
Qed.

End CellEdits.

(** ** Pointer gestures *)

Lemma points_copy (pts : list Point) :
  (fun point => mkPoint (pt_x point) (pt_y point)) <$> pts = pts.
Proof.
  induction pts as [| [x y] pts IH]; [done |]. by rewrite fmap_cons, IH.
Qed.

Lemma cloneShape_same (shape : Shape) : cloneShape shape = shape.
Proof.
  destruct shape as [[b pts st w] | t | t]; [| done | done].
  unfold cloneShape. cbn [points path_base path_stroke strokeWidth].
  by rewrite points_copy.
Qed.

Lemma normalized_table_fields (t : TableShape) (x y w h : Q) :
  normalized (Table t) ->
  normalized (Table (mkTable (table_base t) x y (rows t) (cols t) w h
                             (table_stroke t) (cells t))).
Proof.
  unfold normalized. simpl. intros Hfix. injection Hfix as Hfix.
  apply (f_equal cells) in Hfix. simpl in Hfix.
  unfold ensureTableCells. simpl. by rewrite Hfix.
Qed.

Lemma normalized_not_table (shape : Shape) :
  shape_type shape <> TTable -> normalized shape.
Proof. destruct shape as [p | [b x y tx c f] | t]; done. Qed.

Lemma resizeShape_keeps (r : ResizeRef) (position : PointerPosition)
    (shape : Shape) :
  shape_id (resizeShape r position shape) = shape_id shape /\
  shape_type (resizeShape r position shape) = shape_type shape /\
  (normalized shape -> normalized (resizeShape r position shape)).
Proof.
  unfold resizeShape.
  destruct (decide (shape_id shape ≠ resize_id r)); [done |].
  destruct (originalShape r) as [po | to | to], shape as [p | t | t];
    cbn [withCellSize withFontSize withPoints]; try done.
  all: repeat split; try done.
  all: try (intros _; apply normalized_not_table; discriminate).
  apply normalized_table_fields.
Qed.

Lemma dragShape_keeps (d : DragRef) (position : PointerPosition)
    (shape : Shape) :
  shape_id (dragShape d position shape) = shape_id shape /\
  shape_type (dragShape d position shape) = shape_type shape /\
  (normalized shape -> normalized (dragShape d position shape)).
Proof.
  unfold dragShape.
  destruct (decide (shape_id shape ≠ drag_id d)); [done |].
  destruct shape as [p | t | t].
  - destruct (_ && _); [done |]. cbn [withPoints].
    repeat split; try done;
      try (intros _; apply normalized_not_table; discriminate).
  - repeat split; try done;
      try (intros _; apply normalized_not_table; discriminate).
  - repeat split; try done. apply normalized_table_fields.
Qed.

Lemma fmap_keeps_ids (f : Shape -> Shape) (l : list Shape) :
  (forall shape, shape_id (f shape) = shape_id shape /\
                 shape_type (f shape) = shape_type shape) ->
  shape_id <$> (f <$> l) = shape_id <$> l /\
  shape_type <$> (f <$> l) = shape_type <$> l.
Proof.
  intros Hf. rewrite <- !list_fmap_compose.
  split; apply list_fmap_ext; intros i shape _; simpl; apply Hf.
Qed.

Section PointerProperties.

Variable clientId : string.
Variable userName : string.
Variable numberToString : Q -> string.

#[local] Abbreviation entryFor := (entryFor userName).
#[local] Abbreviation handlePointerUp :=
  (handlePointerUp clientId userName numberToString).
#[local] Abbreviation handlePointerDown :=
  (handlePointerDown clientId userName numberToString).
#[local] Abbreviation commitPath := (commitPath clientId userName).
#[local] Abbreviation finalizeShapeDrag :=
  (finalizeShapeDrag clientId userName numberToString).
#[local] Abbreviation finalizeShapeResize :=
  (finalizeShapeResize clientId userName numberToString).
#[local] Abbreviation performUndo := (performUndo clientId userName).

Lemma handlePointerMove_run (ui : Ui) (event : PointerEvent) (s : Ctx) :
  exists (ui' : Ui) (f : Shape -> Shape),
    handlePointerMove ui event s =
      (ui',
       mkCtx (f <$> shapes s) (history s) (shapesRef s) (historyRef s)
             (undoStackRef s) (redoStackRef s) (isUndoRedoRef s),
       []) /\
    (forall shape,
        shape_id (f shape) = shape_id shape /\
        shape_type (f shape) = shape_type shape /\
        (normalized shape -> normalized (f shape))) /\
    tool ui' = tool ui /\
    draggingShapeRef ui' = draggingShapeRef ui /\
    resizingShapeRef ui' = resizingShapeRef ui /\
    ((resizingShapeRef ui <> None \/ draggingShapeRef ui <> None) -> ui' = ui).
Proof.
  assert (Hid : forall ui0 : Ui,
    (mret ui0 : Handler Ui) s =
      (ui0,
       mkCtx ((fun shape : Shape => shape) <$> shapes s) (history s)
             (shapesRef s) (historyRef s)
             (undoStackRef s) (redoStackRef s) (isUndoRedoRef s), [])).
  { intros ui0.
    change ((fun shape : Shape => shape) <$> shapes s)
      with (Datatypes.id <$> shapes s).
    rewrite list_fmap_id. by destruct s. }
  unfold handlePointerMove.
  destruct (resizingShapeRef ui) as [r |] eqn:Hr.
  - destruct (getPointerPosition event) as [position |].
    + exists ui, (resizeShape r position). split; [reflexivity |].
      split; [apply resizeShape_keeps |]. by rewrite Hr.
    + exists ui, (fun shape => shape). split; [apply Hid |]. by rewrite Hr.
  - destruct (draggingShapeRef ui) as [d |] eqn:Hd.
    + destruct (getPointerPosition event) as [position |].
      * exists ui, (dragShape d position). split; [reflexivity |].
        split; [apply dragShape_keeps |]. by rewrite Hr, Hd.
      * exists ui, (fun shape => shape). split; [apply Hid |]. by rewrite Hr, Hd.
    + destruct (negb (isDrawing ui) || _).
      * exists ui, (fun shape => shape). split; [apply Hid |]. rewrite Hr, Hd.
        repeat split; try done; try (intros [? | ?]; done).
      * destruct (getRelativePoint event) as [pt |].
        -- eexists _, (fun shape => shape). split; [apply Hid |].
           repeat split; try done; try (intros [? | ?]; done).
        -- exists ui, (fun shape => shape). split; [apply Hid |]. rewrite Hr, Hd.
           repeat split; try done; try (intros [? | ?]; done).
Qed.

(** X16. A pointer move edits shapes in place and nothing else: the board
    keeps its shapes' ids and kinds, in order; the history, the undo and
    redo stacks and the suppression flag are as before; no message is
    posted; the tool and the gesture refs are as before. *)
Theorem handlePointerMove_in_place (ui : Ui) (event : PointerEvent) (s : Ctx) :
  let ui' := (handlePointerMove ui event s).1.1 in
  let s' := (handlePointerMove ui event s).1.2 in
  shape_id <$> shapes s' = shape_id <$> shapes s /\
  shape_type <$> shapes s' = shape_type <$> shapes s /\
  history s' = history s /\
  undoStackRef s' = undoStackRef s /\ redoStackRef s' = redoStackRef s /\
  isUndoRedoRef s' = isUndoRedoRef s /\
  (handlePointerMove ui event s).2 = [] /\
  tool ui' = tool ui /\
  draggingShapeRef ui' = draggingShapeRef ui /\
  resizingShapeRef ui' = resizingShapeRef ui.
Proof.
  destruct (handlePointerMove_run ui event s)
    as (ui' & f & -> & Hf & Htool & Hdrag & Hres & _).
  cbn [fst snd shapes history undoStackRef redoStackRef isUndoRedoRef].
  destruct (fmap_keeps_ids f (shapes s)) as [Hids Htypes].
  { intros shape. destruct (Hf shape) as (? & ? & _). done. }
  done.
Qed.

End PointerProperties.

(** ** Gestures *)

Lemma flushEffects_rendered (s : Ctx) : rendered s -> flushEffects s = s.
Proof. destruct s. intros [Hs Hh]. simpl in *. by subst. Qed.

Lemma flushEffects_is_rendered (s : Ctx) : rendered (flushEffects s).
Proof. by split. Qed.

Lemma findShapeAtPoint_found (shapes : list Shape) (pt : Point) :
  match findShapeAtPoint shapes pt with
  | Some shape => shape ∈ shapes /\ isShapeAtPoint pt shape = true
  | None => True
  end.
Proof.
  unfold findShapeAtPoint.
  pose proof (findShapeBelow_spec shapes pt (length shapes)) as Hspec.
  destruct (findShapeBelow (length shapes) shapes pt) as [shape |]; [| done].
  destruct Hspec as (i & _ & Hlook & Hhit & _).
  split; [| done]. apply list_elem_of_lookup. eauto.
Qed.

Section Gestures.

Variable clientId : string.
Variable userName : string.
Variable numberToString : Q -> string.

#[local] Abbreviation entryFor := (entryFor userName).
#[local] Abbreviation handlePointerUp :=
  (handlePointerUp clientId userName numberToString).
#[local] Abbreviation handlePointerDown :=
  (handlePointerDown clientId userName numberToString).
#[local] Abbreviation commitPath := (commitPath clientId userName).
#[local] Abbreviation finalizeShapeDrag :=
  (finalizeShapeDrag clientId userName numberToString).
#[local] Abbreviation finalizeShapeResize :=
  (finalizeShapeResize clientId userName numberToString).
#[local] Abbreviation performUndo := (performUndo clientId userName).

Lemma pointerMoves_keeps (moves : list PointerEvent) :
  forall (ui : Ui) (s : Ctx),
    let r := pointerMoves moves ui s in
    tool r.1 = tool ui /\
    draggingShapeRef r.1 = draggingShapeRef ui /\
    resizingShapeRef r.1 = resizingShapeRef ui /\
    history r.2 = history s /\
    undoStackRef r.2 = undoStackRef s /\
    redoStackRef r.2 = redoStackRef s /\
    isUndoRedoRef r.2 = isUndoRedoRef s /\
    shape_id <$> shapes r.2 = shape_id <$> shapes s /\
    (rendered s -> rendered r.2).
Proof.
  induction moves as [| event rest IH]; intros ui s; [done |].
  cbn [pointerMoves]. unfold fireUi.
  destruct (handlePointerMove_run ui event s)
    as (ui' & f & -> & Hf & Htool & Hdrag & Hres & _).
  specialize (IH ui' (flushEffects
    (mkCtx (f <$> shapes s) (history s) (shapesRef s) (historyRef s)
           (undoStackRef s) (redoStackRef s) (isUndoRedoRef s)))).
  cbv zeta in IH.
  destruct IH as (IH1 & IH2 & IH3 & IH4 & IH5 & IH6 & IH7 & IH8 & IH9).
  destruct (fmap_keeps_ids f (shapes s)) as [Hids _].
  { intros shape. destruct (Hf shape) as (? & ? & _). done. }
  cbv zeta.
  rewrite IH1, IH2, IH3, IH4, IH5, IH6, IH7, IH8.
  repeat split; try done.
  all: intros; apply IH9, flushEffects_is_rendered.
Qed.

Lemma handleShapePointerDown_run (ui : Ui) (event : PointerEvent)
    (shape : Shape) (s : Ctx) :
  tool ui = Move -> draggingShapeRef ui = None ->
  is_Some (getPointerPosition event) ->
  exists drag : DragRef,
    drag_id drag = shape_id shape /\
    handleShapePointerDown ui event shape s =
      (setDragging ui (Some drag), (saveStateForUndo s).1.2, []).
Proof.
  intros Htool Hdrag [position Hpos]. unfold handleShapePointerDown.
  rewrite Htool, Hpos, Hdrag.
  eexists. split; [| destruct s as [sh hi shr hir u r []]; reflexivity].
  reflexivity.
Qed.

Lemma finalizeShapeDrag_run (ui : Ui) (drag : DragRef) (fresh : Fresh)
    (s : Ctx) :
  draggingShapeRef ui = Some drag ->
  exists (s' : Ctx) (out : list ChannelMessage),
    finalizeShapeDrag ui fresh s = (setDragging ui None, s', out) /\
    undoStackRef s' = undoStackRef s /\ redoStackRef s' = redoStackRef s /\
    isUndoRedoRef s' = isUndoRedoRef s /\
    shape_id <$> shapes s' = shape_id <$> shapes s /\
    length out <= 1 /\
    length (history s') <= S (length (history s)).
Proof.
  intros Hdrag. unfold finalizeShapeDrag. rewrite Hdrag, bind_gets.
  destruct (List.find _ (shapesRef s)) as [target |].
  - unfold mbind, Handler_bind. rewrite applyShapeUpdate_run.
    cbn [fst snd]. eexists _, _. split; [reflexivity |].
    cbn [shapes history undoStackRef redoStackRef isUndoRedoRef].
    repeat split; try done.
    all: try apply replace_by_id_ids.
    all: try (unfold JS.slice_to; rewrite length_take); cbn [length]; lia.
  - exists s, []. repeat split; try done; cbn [length]; lia.
Qed.

(** X17. A drag is one undo step.  With the move tool and no gesture under
    way, pressing on a shape, moving the pointer any number of times and
    releasing it pushes exactly one frame on the undo stack, the document
    as it was before the press, and empties the redo stack; only the
    release logs an entry and posts a message, at most one of each.  The
    ids of the shapes stay as they were, and one [performUndo] after the
    release gives back the shapes the board had before the press. *)
Theorem drag_gesture_is_one_undo_step (ui : Ui) (down : PointerEvent)
    (shape : Shape) (moves : list PointerEvent) (shapeFresh fresh undo : Fresh)
    (s : Ctx) :
  tool ui = Move ->
  draggingShapeRef ui = None -> resizingShapeRef ui = None ->
  is_Some (getPointerPosition down) ->
  rendered s -> isUndoRedoRef s = false ->
  let pressed := fireUi (handleShapePointerDown ui down shape) s in
  let moved := pointerMoves moves pressed.1.1 pressed.1.2 in
  let released := fireUi (handlePointerUp moved.1 shapeFresh fresh) moved.2 in
  pressed.2 = [] /\
  undoStackRef released.1.2 =
    JS.slice_last 50 (undoStackRef s ++ [mkSnapshot (shapes s) (history s)]) /\
  redoStackRef released.1.2 = [] /\
  draggingShapeRef released.1.1 = None /\
  shape_id <$> shapes released.1.2 = shape_id <$> shapes s /\
  length released.2 <= 1 /\
  length (history released.1.2) <= S (length (history s)) /\
  shapes (fire (performUndo undo) released.1.2).1 = shapes s.
Proof.
  intros Htool Hdrag Hres Hpos Hr Hflag pressed moved released.
  destruct (handleShapePointerDown_run ui down shape s Htool Hdrag Hpos)
    as (drag & _ & Hdown).
  assert (Hpressed : pressed =
            (setDragging ui (Some drag),
             flushEffects (saveStateForUndo s).1.2, [])).
  { subst pressed. unfold fireUi. by rewrite Hdown. }
  rewrite saveStateForUndo_run, Hflag in Hpressed. cbn [fst snd] in Hpressed.
  destruct Hr as [Hsh Hhi]. rewrite Hsh, Hhi in Hpressed.
  destruct (pointerMoves_keeps moves pressed.1.1 pressed.1.2)
    as (Mtool & Mdrag & Mres & Mhist & Mundo & Mredo & Mflag & Mids & Mr).
  fold moved in Mtool, Mdrag, Mres, Mhist, Mundo, Mredo, Mflag, Mids, Mr.
  rewrite Hpressed in Mtool, Mdrag, Mres, Mhist, Mundo, Mredo, Mflag, Mids, Mr.
  cbn [fst snd tool draggingShapeRef resizingShapeRef setDragging history
       undoStackRef redoStackRef isUndoRedoRef shapes flushEffects]
    in Mtool, Mdrag, Mres, Mhist, Mundo, Mredo, Mflag, Mids, Mr.
  rewrite Hres in Mres.
  destruct (finalizeShapeDrag_run moved.1 drag fresh moved.2 Mdrag)
    as (s' & out & Hfin & Fundo & Fredo & Fflag & Fids & Fout & Fhist).
  assert (Hreleased : released = (setDragging moved.1 None, flushEffects s', out)).
  { subst released. unfold fireUi, handlePointerUp.
    rewrite Mres, Mdrag. by rewrite Hfin. }
  rewrite Hreleased. cbn [fst snd].
  assert (Hstack : undoStackRef (flushEffects s') =
            JS.slice_last 49 (undoStackRef s)
              ++ [mkSnapshot (shapes s) (history s)]).
  { cbn [flushEffects undoStackRef]. rewrite Fundo, Mundo.
    rewrite slice_last_app_short by (cbn [length]; lia). reflexivity. }
  split; [by rewrite Hpressed |].
  split; [cbn [flushEffects undoStackRef]; by rewrite Fundo, Mundo |].
  split; [cbn [flushEffects redoStackRef]; by rewrite Fredo, Mredo |].
  split; [done |].
  split; [cbn [flushEffects shapes]; by rewrite Fids, Mids |].
  split; [done |].
  split; [cbn [flushEffects history]; by rewrite <- Mhist |].
  unfold fire.
  by rewrite (performUndo_run clientId userName undo _ _ _ Hstack).
Qed.

Lemma pointerMoves_drawing (moves : list PointerEvent) :
  forall (ui : Ui) (s : Ctx),
    tool ui = Pen -> isDrawing ui = true ->
    draggingShapeRef ui = None -> resizingShapeRef ui = None ->
    rendered s ->
    pointerMoves moves ui s =
      (setDrawing ui true (tempPoints ui ++ omap getRelativePoint moves), s).
Proof.
  induction moves as [| event rest IH]; intros ui s Htool Hdraw Hdrag Hres Hr.
  - cbn [pointerMoves omap list_omap]. rewrite app_nil_r.
    destruct ui; simpl in *; by subst.
  - cbn [pointerMoves]. unfold fireUi, handlePointerMove.
    rewrite Hres, Hdrag, Htool, Hdraw. cbn [negb orb].
    destruct (getRelativePoint event) as [pt |] eqn:Hpt.
    + cbn [mret Handler_ret]. rewrite (flushEffects_rendered s Hr).
      rewrite IH by done. cbn [omap list_omap]. rewrite Hpt.
      cbn [tempPoints setDrawing]. by rewrite <- app_assoc.
    + cbn [mret Handler_ret]. rewrite (flushEffects_rendered s Hr).
      rewrite IH by done. cbn [omap list_omap]. by rewrite Hpt.
Qed.

(** X18. A pen stroke is committed on release when it has two points.
    With the pen tool and no gesture under way, a press on the board starts
    a stroke at the pressed point; every move that has a position adds its
    point; the release commits one path holding these points in order, in
    the pen colour and width, logs "drew a stroke (n pts)" and posts one
    [add-shape] message, but when the stroke has its first point only (a
    click) nothing is committed, logged or posted.  In both cases the pen
    is up and the temporary points are gone. *)
Theorem pen_gesture_commits_stroke (ui : Ui) (down : PointerEvent)
    (start : Point) (moves : list PointerEvent)
    (fresh0 shapeFresh fresh : Fresh) (s : Ctx) :
  tool ui = Pen ->
  draggingShapeRef ui = None -> resizingShapeRef ui = None ->
  rendered s -> isUndoRedoRef s = false ->
  getRelativePoint down = Some start ->
  let pts := start :: omap getRelativePoint moves in
  let stroke :=
    Path (mkPath (mkBase (fresh_id shapeFresh) userName (fresh_ts shapeFresh))
                 pts (ui_color ui) (ui_strokeWidth ui)) in
  let entry :=
    entryFor (userName +:+ " drew a stroke (" +:+ pretty (length pts)
                       +:+ " pts)") fresh in
  exists pressed : Ui * Ctx * list ChannelMessage,
    (h ← handlePointerDown ui down fresh0; Some (fireUi h s)) = Some pressed /\
    pressed.1.2 = s /\ pressed.2 = [] /\
    let moved := pointerMoves moves pressed.1.1 pressed.1.2 in
    let released := fireUi (handlePointerUp moved.1 shapeFresh fresh) moved.2 in
    tempPoints moved.1 = pts /\
    isDrawing released.1.1 = false /\ tempPoints released.1.1 = [] /\
    if (2 <=? length pts)%nat
    then shapes released.1.2 = shapes s ++ [stroke] /\
         head (history released.1.2) = Some entry /\
         released.2 = [AddShape (toRaw stroke) entry clientId] /\
         undoStackRef released.1.2 =
           JS.slice_last 50 (undoStackRef s ++ [mkSnapshot (shapes s) (history s)])
    else released.1.2 = s /\ released.2 = [].
Proof.
  intros Htool Hdrag Hres Hr Hflag Hstart pts stroke entry.
  exists (setDrawing ui true [start], s, []). split.
  { unfold handlePointerDown. rewrite Htool, Hstart.
    cbn [mbind option_bind]. unfold fireUi. cbn [mret Handler_ret].
    by rewrite (flushEffects_rendered s Hr). }
  cbn [fst snd]. split; [done |]. split; [done |].
  rewrite pointerMoves_drawing by done.
  cbn [fst snd tempPoints setDrawing app].
  split; [done |].
  unfold fireUi, handlePointerUp.
  cbn [resizingShapeRef draggingShapeRef isDrawing tempPoints setDrawing negb].
  rewrite Hres, Hdrag. fold pts.
  unfold mbind, Handler_bind, commitPath.
  destruct (2 <=? length pts)%nat eqn:Hlen.
  - apply Nat.leb_le in Hlen.
    assert (Hlt : (length pts <? 2)%nat = false) by (apply Nat.ltb_ge; lia).
    rewrite Hlt, commitShape_run, saveStateForUndo_run, Hflag.
    destruct Hr as [Hsh Hhi]. rewrite Hsh, Hhi.
    cbn [fst snd mret Handler_ret isDrawing tempPoints setDrawing
         flushEffects shapes history undoStackRef].
    repeat split; try done.
  - cbn [mret Handler_ret fst snd isDrawing tempPoints setDrawing].
    rewrite (flushEffects_rendered s Hr). done.
Qed.

(** X19. The eraser deletes what it touches, topmost first.  With the
    eraser tool, a press at a point of the board finds the last shape of
    the list that passes the hit test there and deletes by its id: no shape
    with that id stays, one entry is logged and one [delete-shape] message
    is posted.  When no shape passes the test the press changes nothing and
    posts nothing. *)
Theorem eraser_deletes_hit_shape (ui : Ui) (event : PointerEvent)
    (pt : Point) (fresh : Fresh) (s : Ctx) :
  tool ui = Eraser -> rendered s ->
  getRelativePoint event = Some pt ->
  exists pressed : Ui * Ctx * list ChannelMessage,
    (h ← handlePointerDown ui event fresh; Some (fireUi h s)) = Some pressed /\
    pressed.1.1 = ui /\
    match findShapeAtPoint (shapes s) pt with
    | None => pressed.1.2 = s /\ pressed.2 = []
    | Some target =>
        target ∈ shapes s /\ isShapeAtPoint pt target = true /\
        shapes pressed.1.2 =
          filter (fun shape => shape_id shape ≠ shape_id target) (shapes s) /\
        (target ∉ shapes pressed.1.2) /\
        length (history pressed.1.2) <= 250 /\
        exists entry : HistoryItem,
          head (history pressed.1.2) = Some entry /\
          pressed.2 = [DeleteShape (shape_id target) entry clientId]
    end.
Proof.
  intros Htool Hr Hpt. unfold handlePointerDown. rewrite Htool, Hpt.
  eexists. split; [reflexivity |].
  unfold fireUi. rewrite bind_gets.
  destruct Hr as [Hsh Hhi]. rewrite Hsh.
  pose proof (findShapeAtPoint_found (shapes s) pt) as Hfound.
  destruct (findShapeAtPoint (shapes s) pt) as [target |].
  - destruct Hfound as [Hin Hhit].
    unfold mbind, Handler_bind. rewrite deleteShape_run.
    cbn [fst snd mret Handler_ret flushEffects shapes history].
    split; [done |]. split; [done |]. split; [done |]. split; [done |].
    split.
    { intros Hstill. apply list_elem_of_filter in Hstill as [Hne _]. done. }
    split.
    { unfold JS.slice_to. rewrite length_take. lia. }
    eexists. split; reflexivity.
  - cbn [mret Handler_ret fst snd].
    rewrite flushEffects_rendered by done. done.
Qed.

End Gestures.

(** ** Every event, one of a few outcomes *)

Lemma bind_then_ret {A} (h : Handler unit) (x : A) (s : Ctx) :
  (h;; mret x) s = (x, (h s).1.2, (h s).2).
Proof.
  unfold mbind, mret, Handler_bind, Handler_ret.
  destruct (h s) as [[[] c] out]. cbn. by rewrite app_nil_r.
Qed.

Lemma save_clears_flag (s : Ctx) :
  isUndoRedoRef (saveStateForUndo s).1.2 = false.
Proof. rewrite saveStateForUndo_run. by destruct (isUndoRedoRef s). Qed.

Lemma outcome_logged_captured (userName : string) (s : Ctx) (local : bool)
    (after : list Shape) (entry : HistoryItem) :
  Edited (shapes s) after -> user entry = userName ->
  Outcome userName s local
    (mkCtx after (JS.slice_to 250 (entry :: history s))
           (shapesRef s) (historyRef s)
           (undoStackRef (saveStateForUndo s).1.2)
           (redoStackRef (saveStateForUndo s).1.2) false).
Proof.
  intros Hedit Huser.
  pose proof (outcome_logged userName s local (saveStateForUndo s).1.2 after
                entry (or_intror eq_refl) Hedit Huser) as Hout.
  by rewrite save_clears_flag in Hout.
Qed.

Section Outcomes.

Variable clientId : string.
Variable userName : string.
Variable numberToString : Q -> string.

#[local] Abbreviation step :=
  (step clientId userName numberToString).
#[local] Abbreviation steps :=
  (steps clientId userName numberToString).
#[local] Abbreviation Outcome := (Outcome userName).

Lemma mutate_outcome (m : Mutation) (fresh : Fresh) (s : Ctx) (local : bool) :
  Outcome s local (mutate clientId userName m fresh s).1.2.
Proof.
  destruct m as [shape d | shape d | sid d |]; unfold mutate.
  - rewrite commitShape_run. by apply outcome_logged_captured; [constructor |].
  - rewrite applyShapeUpdate_run. cbn [fst snd].
    by apply (outcome_logged userName s local (saveStateForUndo s).1.2);
      [right | constructor |].
  - rewrite deleteShape_run. by apply outcome_logged_captured; [constructor |].
  - destruct (shapes s) as [| s0 rest] eqn:Hsh.
    + rewrite clearBoard_empty by done. constructor.
    + rewrite clearBoard_run by (by rewrite Hsh). cbn [fst snd].
      by apply outcome_logged_captured; [constructor |].
Qed.

Lemma applyShapeUpdate_skip_outcome (shape : Shape) (d : string)
    (fresh : Fresh) (s : Ctx) (local : bool) :
  Outcome s local
    (applyShapeUpdate clientId userName shape d true fresh s).1.2.
Proof.
  rewrite applyShapeUpdate_run. cbn [fst snd].
  by apply (outcome_logged userName s local s); [left | constructor |].
Qed.

Lemma updateTableCell_outcome (t : TableShape) (row col : nat) (value : string)
    (fresh : Fresh) (s : Ctx) (local : bool) :
  Outcome s local (updateTableCell clientId userName t row col value fresh s).1.2.
Proof.
  unfold updateTableCell.
  destruct (decide _); [constructor |].
  cbv zeta. rewrite applyShapeUpdate_run. cbn [fst snd].
  by apply (outcome_logged userName s local (saveStateForUndo s).1.2);
    [right | constructor |].
Qed.

Lemma performUndo_outcome (fresh : Fresh) (s : Ctx) (local : bool) :
  Outcome s local (performUndo clientId userName fresh s).1.2.
Proof.
  destruct (undoStackRef s) as [| top rest _] eqn:Hu using rev_ind.
  - rewrite performUndo_empty by done. constructor.
  - rewrite (performUndo_run _ _ _ _ _ _ Hu). cbn [fst snd].
    by apply outcome_undone.
Qed.

Lemma performRedo_outcome (fresh : Fresh) (s : Ctx) (local : bool) :
  Outcome s local (performRedo clientId userName fresh s).1.2.
Proof.
  destruct (redoStackRef s) as [| top rest _] eqn:Hr using rev_ind.
  - rewrite performRedo_empty by done. constructor.
  - rewrite (performRedo_run _ _ _ _ _ _ Hr). cbn [fst snd].
    by apply outcome_redone.
Qed.

Lemma handleMessage_outcome (data : option ChannelMessage) (s : Ctx) :
  Outcome s false (handleMessage clientId data s).1.2.
Proof.
  destruct data as [payload |]; [| constructor].
  destruct (decide (senderId payload = clientId)) as [Hself | Hpeer].
  - unfold handleMessage. rewrite decide_True by done. constructor.
  - rewrite handleMessage_run by done.
    destruct payload as [shape ? ? | ? ? | ? | sent ? ? | shape ? ? | sid ? ?
                        | sent ? ?]; cbn [fst snd].
    + apply outcome_remote. left. constructor.
    + apply outcome_remote. left. constructor.
    + constructor.
    + apply outcome_remote. right. eauto.
    + apply outcome_remote. left.
      pose proof (edited_replaced (shapes s) shape) as Hedit.
      by rewrite normalizeShape_id in Hedit.
    + apply outcome_remote. left. constructor.
    + apply outcome_remote. right. eauto.
Qed.

Lemma step_outcome (ev : Event) (ui : Ui) (s : Ctx)
    (r : Ui * Ctx * list ChannelMessage) :
  step ev (ui, s) = Some r ->
  exists c : Ctx, r.1.2 = flushEffects c /\ Outcome s (isLocal ev) c.
Proof.
  unfold step, handlerOf. cbn [fst snd].
  assert (Hret : forall (ui0 : Ui) (local : bool),
             exists c : Ctx,
               (fireUi (mret ui0) s).1.2 = flushEffects c /\ Outcome s local c).
  { intros ui0 local. exists s. split; [done | constructor]. }
  assert (Hkeep : forall (h : Handler unit) (local : bool),
             Outcome s local (h s).1.2 ->
             exists c : Ctx,
               (fireUi (h;; mret ui) s).1.2 = flushEffects c /\
               Outcome s local c).
  { intros h local Hout. exists (h s).1.2. split; [| done].
    unfold fireUi. by rewrite bind_then_ret. }
  destruct ev as [m fresh | t row col value fresh | fresh | fresh | data
                 | event fresh | event shape | event shape | event
                 | shapeFresh fresh]; cbn [mbind option_bind isLocal].
  - intros [= <-]. apply Hkeep, mutate_outcome.
  - intros [= <-]. apply Hkeep, updateTableCell_outcome.
  - intros [= <-]. apply Hkeep, performUndo_outcome.
  - intros [= <-]. apply Hkeep, performRedo_outcome.
  - intros [= <-]. apply Hkeep, handleMessage_outcome.
  - unfold handlePointerDown.
    destruct (tool ui); cbn [mbind option_bind]; try discriminate;
      intros [= <-]; try apply Hret.
    + destruct (getRelativePoint event); apply Hret.
    + destruct (getRelativePoint event) as [pt |]; [| apply Hret].
      unfold fireUi. rewrite bind_gets.
      destruct (findShapeAtPoint (shapesRef s) pt) as [target |];
        [| apply Hret].
      rewrite bind_then_ret, deleteShape_run. cbn [fst snd].
      eexists. split; [reflexivity |].
      by apply outcome_logged_captured; [constructor |].
  - intros [= <-]. unfold handleShapePointerDown.
    destruct (tool ui); try apply Hret.
    destruct (getPointerPosition event); [| apply Hret].
    destruct (draggingShapeRef ui); [apply Hret |].
    unfold fireUi. rewrite bind_then_ret. cbn [fst snd].
    eexists. split; [reflexivity | constructor].
  - intros [= <-]. unfold handleResizePointerDown.
    destruct (tool ui); try apply Hret.
    destruct (resizingShapeRef ui); [apply Hret |].
    destruct (getPointerPosition event); [| apply Hret].
    unfold fireUi. rewrite bind_then_ret. cbn [fst snd].
    eexists. split; [reflexivity | constructor].
  - intros [= <-]. unfold fireUi.
    destruct (handlePointerMove_run ui event s)
      as (ui' & f & -> & Hf & _).
    cbn [fst snd]. eexists. split; [reflexivity |].
    constructor. intros shape. destruct (Hf shape) as (? & _ & ?). done.
  - intros [= <-]. unfold handlePointerUp.
    destruct (resizingShapeRef ui) as [resizeState |] eqn:Hres.
    { unfold finalizeShapeResize, fireUi. rewrite Hres, bind_gets.
      destruct (List.find _ (shapesRef s)) as [target |]; [| apply Hret].
      rewrite bind_then_ret. cbn [fst snd].
      eexists. split; [reflexivity |]. apply applyShapeUpdate_skip_outcome. }
    destruct (draggingShapeRef ui) as [drag |] eqn:Hdrag.
    { unfold finalizeShapeDrag, fireUi. rewrite Hdrag, bind_gets.
      destruct (List.find _ (shapesRef s)) as [target |]; [| apply Hret].
      rewrite bind_then_ret. cbn [fst snd].
      eexists. split; [reflexivity |]. apply applyShapeUpdate_skip_outcome. }
    destruct (negb (isDrawing ui)); [apply Hret |].
    unfold fireUi. rewrite bind_then_ret. cbn [fst snd].
    eexists. split; [reflexivity |].
    destruct (2 <=? length (tempPoints ui))%nat; [| constructor].
    unfold commitPath.
    destruct (length (tempPoints ui) <? 2)%nat; [constructor |].
    rewrite commitShape_run. by apply outcome_logged_captured; [constructor |].
Qed.

End Outcomes.

(** ** Invariants of a session *)

Lemma edited_normalized (before after : list Shape) :
  Edited before after -> Forall normalized before -> Forall normalized after.
Proof.
  intros Hedit Hall. destruct Hedit as [shape | shape | shapeId |].
  - apply Forall_app. split; [done |].
    apply Forall_singleton. apply normalizeShape_idem.
  - apply Forall_fmap. eapply Forall_impl; [exact Hall |].
    intros old Hold. simpl. destruct (decide _); [| done].
    apply normalizeShape_idem.
  - apply Forall_forall. intros shape Hin.
    apply list_elem_of_filter in Hin as [_ Hin].
    rewrite Forall_forall in Hall. by apply Hall.
  - constructor.
Qed.

Lemma normalized_table_grid (t : TableShape) :
  normalized (Table t) ->
  exists grid : list (list string),
    cells t = Some grid /\ length grid = JS.ToLength (rows t) /\
    Forall (fun cellRow => length cellRow = JS.ToLength (cols t)) grid.
Proof.
  unfold normalized. simpl. intros Hfix. injection Hfix as Hfix.
  apply (f_equal cells) in Hfix. simpl in Hfix.
  eexists. split; [symmetry; exact Hfix |].
  split; [apply Array_from_length |].
  apply Forall_forall. intros cellRow Hin.
  unfold JS.Array_from in Hin at 1.
  apply list_elem_of_fmap in Hin as (r & -> & _). apply Array_from_length.
Qed.

Section Invariants.

Variable clientId : string.
Variable userName : string.
Variable numberToString : Q -> string.

#[local] Abbreviation step :=
  (step clientId userName numberToString).
#[local] Abbreviation steps :=
  (steps clientId userName numberToString).
#[local] Abbreviation Outcome := (Outcome userName).

Lemma save_budget (s : Ctx) :
  withinBudget s -> withinBudget (saveStateForUndo s).1.2.
Proof.
  unfold withinBudget. rewrite saveStateForUndo_run.
  destruct (isUndoRedoRef s); cbn [fst snd undoStackRef redoStackRef length];
    [done |].
  intros _. rewrite slice_last_length. lia.
Qed.

Lemma outcome_budget (s c : Ctx) (local : bool) :
  Outcome s local c -> withinBudget s -> withinBudget (flushEffects c).
Proof.
  intros Hout Hb.
  destruct Hout as [local | local | local f Hf | local k after entry Hk _ _
                   | local rest top entry Hu _ | local rest top entry Hr _
                   | after log flag _].
  - done.
  - by apply save_budget.
  - done.
  - destruct Hk as [-> | ->]; [done | by apply save_budget].
  - unfold withinBudget in *. cbn [flushEffects undoStackRef redoStackRef].
    rewrite Hu, !length_app in *. simpl in *. lia.
  - unfold withinBudget in *. cbn [flushEffects undoStackRef redoStackRef].
    rewrite Hr, !length_app in *. simpl in *. lia.
  - done.
Qed.

(** X20. The two stacks share a budget of 50 snapshots.  Whatever the tab
    does and receives (mutations, cell edits, undo, redo, pointer gestures,
    messages of peers), if the undo stack and the redo stack held at most
    50 snapshots together before, they do after; so from a fresh tab
    neither stack ever holds more than 50, although only the capture cuts
    the undo stack and nothing cuts the redo stack. *)
Theorem stacks_within_budget (evs : list Event) :
  forall b b' : Ui * Ctx,
    withinBudget b.2 -> steps evs b = Some b' ->
    withinBudget b'.2 /\
    length (undoStackRef b'.2) <= 50 /\ length (redoStackRef b'.2) <= 50.
Proof.
  induction evs as [| ev rest IH]; intros [ui s] b' Hb Hrun.
  - injection Hrun as <-. unfold withinBudget in *. simpl in *. lia.
  - cbn [steps] in Hrun.
    destruct (step ev (ui, s)) as [[[ui1 s1] out] |] eqn:Hstep; [| done].
    destruct (step_outcome _ _ _ _ _ _ _ Hstep) as (c & Hc & Hout).
    cbn [fst snd] in Hc. subst s1.
    apply (IH (ui1, flushEffects c) b' (outcome_budget _ _ _ Hout Hb) Hrun).
Qed.

Lemma save_wellFormed (s : Ctx) :
  wellFormed s ->
  Forall (fun snap => Forall normalized (snap_shapes snap))
         (undoStackRef (saveStateForUndo s).1.2
            ++ redoStackRef (saveStateForUndo s).1.2).
Proof.
  intros ([Hsh Hhi] & Hshapes & Hstacks). rewrite saveStateForUndo_run.
  destruct (isUndoRedoRef s); cbn [fst snd undoStackRef redoStackRef];
    [done |].
  rewrite app_nil_r. unfold JS.slice_last. apply Forall_drop.
  apply Forall_app in Hstacks as [Hundo _].
  apply Forall_app. split; [done |].
  apply Forall_singleton. cbn [snap_shapes]. by rewrite Hsh.
Qed.

Lemma outcome_wellFormed (s c : Ctx) (local : bool) :
  Outcome s local c -> wellFormed s -> wellFormed (flushEffects c).
Proof.
  intros Hout Hwf. pose proof Hwf as ([Hsh Hhi] & Hshapes & Hstacks).
  split; [apply flushEffects_is_rendered |].
  cbn [flushEffects shapes undoStackRef redoStackRef].
  destruct Hout as [local | local | local f Hf | local k after entry Hk Hedit _
                   | local rest top entry Hu _ | local rest top entry Hr _
                   | after log flag Hafter].
  - done.
  - split; [| by apply save_wellFormed].
    rewrite saveStateForUndo_run. by destruct (isUndoRedoRef s).
  - cbn [shapes undoStackRef redoStackRef]. split; [| done].
    apply Forall_fmap. eapply Forall_impl; [exact Hshapes |].
    intros shape Hn. destruct (Hf shape) as [_ Hkeep]. by apply Hkeep.
  - cbn [shapes undoStackRef redoStackRef].
    split; [by apply (edited_normalized (shapes s)) |].
    destruct Hk as [-> | ->]; [done | by apply save_wellFormed].
  - cbn [shapes undoStackRef redoStackRef].
    rewrite Hu in Hstacks.
    apply Forall_app in Hstacks as [Hundo Hredo].
    apply Forall_app in Hundo as [Hrest Htop].
    rewrite Forall_singleton in Htop.
    split; [done |].
    rewrite !Forall_app. repeat split; try done.
    apply Forall_singleton. cbn [snap_shapes]. by rewrite Hsh.
  - cbn [shapes undoStackRef redoStackRef].
    rewrite Hr in Hstacks.
    apply Forall_app in Hstacks as [Hundo Hredo].
    apply Forall_app in Hredo as [Hrest Htop].
    rewrite Forall_singleton in Htop.
    split; [done |].
    rewrite !Forall_app. repeat split; try done.
    apply Forall_singleton. cbn [snap_shapes]. by rewrite Hsh.
  - cbn [shapes undoStackRef redoStackRef]. split; [| done].
    destruct Hafter as [Hedit | [sent ->]].
    + by apply (edited_normalized (shapes s)).
    + unfold normalizeShapes. apply Forall_fmap, Forall_forall.
      intros shape _. apply normalizeShape_idem.
Qed.

(** X21. Every table on the board has the grid [ensureTableCells] makes
    for it, at all times.  If the shapes of the board and of the stored
    snapshots are normalised (as they are after loading) and the refs
    mirror the state, they are so after any sequence of events, local or
    remote; hence every table then on the board has a grid, with as many
    rows as [rows] without its fraction and in each row as many cells as
    [cols] without its fraction: exactly [rows] rows of [cols] cells when
    both are whole numbers. *)
Theorem tables_stay_complete (evs : list Event) :
  forall b b' : Ui * Ctx,
    wellFormed b.2 -> steps evs b = Some b' ->
    wellFormed b'.2 /\
    forall t : TableShape,
      Table t ∈ shapes b'.2 ->
      exists grid : list (list string),
        cells t = Some grid /\ length grid = JS.ToLength (rows t) /\
        Forall (fun cellRow => length cellRow = JS.ToLength (cols t)) grid /\
        forall R C : nat,
          (rows t == inject_Z (Z.of_nat R))%Q ->
          (cols t == inject_Z (Z.of_nat C))%Q ->
          length grid = R /\ Forall (fun cellRow => length cellRow = C) grid.
Proof.
  induction evs as [| ev rest IH]; intros [ui s] b' Hwf Hrun.
  - injection Hrun as <-. split; [done |].
    intros t Hin. destruct Hwf as (_ & Hshapes & _).
    rewrite Forall_forall in Hshapes.
    destruct (normalized_table_grid t (Hshapes _ Hin))
      as (grid & Hgrid & Hrows & Hcols).
    exists grid. split; [done |]. split; [done |]. split; [done |].
    intros R C HR HC.
    by rewrite <- (ToLength_whole _ _ HR), <- (ToLength_whole _ _ HC).
  - cbn [steps] in Hrun.
    destruct (step ev (ui, s)) as [[[ui1 s1] out] |] eqn:Hstep; [| done].
    destruct (step_outcome _ _ _ _ _ _ _ Hstep) as (c & Hc & Hout).
    cbn [fst snd] in Hc. subst s1.
    apply (IH (ui1, flushEffects c) b' (outcome_wellFormed _ _ _ Hout Hwf) Hrun).
Qed.

Lemma outcome_local_history (s c : Ctx) :
  Outcome s true c ->
  history c = history s \/
  (length (history c) <= 250 /\
   exists entry, head (history c) = Some entry /\ user entry = userName).
Proof.
  intros Hout. inversion Hout; subst; cbn [history].
  - by left.
  - left. rewrite saveStateForUndo_run. by destruct (isUndoRedoRef s).
  - by left.
  - right. split; [unfold JS.slice_to; rewrite length_take; lia | eauto].
  - right. split; [unfold JS.slice_to; rewrite length_take; lia | eauto].
  - right. split; [unfold JS.slice_to; rewrite length_take; lia | eauto].
Qed.

(** X22. Local events keep the history log within its cap, and bring it
    back within it.  A local event either leaves the history as it is or
    leaves at most 250 entries with an entry of this user on top, however
    long the log was (a message of a peer may have made it longer); so a
    log of at most 250 entries stays so over any run of local events. *)
Theorem local_events_keep_history_cap (evs : list Event) :
  forall b b' : Ui * Ctx,
    forallb isLocal evs = true -> steps evs b = Some b' ->
    (history b'.2 = history b.2 \/
     (length (history b'.2) <= 250 /\
      exists entry, head (history b'.2) = Some entry /\ user entry = userName)) /\
    (length (history b.2) <= 250 -> length (history b'.2) <= 250).
Proof.
  induction evs as [| ev rest IH]; intros [ui s] b' Hlocal Hrun.
  - injection Hrun as <-. split; [by left | done].
  - cbn [steps] in Hrun. cbn [forallb] in Hlocal.
    apply andb_true_iff in Hlocal as [Hev Hrest].
    destruct (step ev (ui, s)) as [[[ui1 s1] out] |] eqn:Hstep; [| done].
    destruct (step_outcome _ _ _ _ _ _ _ Hstep) as (c & Hc & Hout).
    cbn [fst snd] in Hc. subst s1. rewrite Hev in Hout.
    destruct (IH (ui1, flushEffects c) b' Hrest Hrun) as [IHcase IHcap].
    cbn [fst snd flushEffects history] in IHcase, IHcap.
    destruct (outcome_local_history _ _ Hout) as [Hsame | [Hcap Hentry]];
      cbn [fst snd].
    + rewrite Hsame in IHcase, IHcap. done.
    + split; [| intros _; by apply IHcap].
      destruct IHcase as [-> | ?]; [right | by right]. done.
Qed.

End Invariants.

(** ** What a drag and a resize may do to a shape *)

Lemma clamp_between (value max : Q) :
  (0 <= max)%Q -> (0 <= clamp value 0 max <= max)%Q.
Proof.
  intros Hmax. destruct (clamp_spec value 0 max) as (Hhi & Hlo & _).
  split; [by apply Hlo | exact Hhi].
Qed.

(** X23. A drag clamps the shape to the board.  [dragShape] leaves a
    shape of another id as it is.  For the dragged shape, on a board of
    width and height at least [0]: a table keeps its cells, rows, columns
    and cell sizes, hence the size of its box, and its corner lies between
    [0] and the room the board leaves beside the box,
    [max(board - box, 0)], in both directions; a text has its anchor on the
    board; a path is either left as it is (no displacement) or has every
    point on the board. *)
Theorem dragShape_clamps_to_board (drag : DragRef) (position : PointerPosition)
    (shape : Shape) :
  let bw := size_width (bounds position) in
  let bh := size_height (bounds position) in
  (shape_id shape ≠ drag_id drag -> dragShape drag position shape = shape) /\
  (shape_id shape = drag_id drag -> (0 <= bw)%Q -> (0 <= bh)%Q ->
   match shape, dragShape drag position shape with
   | Table t, Table t' =>
       let box := getShapeBounds (Table t) in
       rows t' = rows t /\ cols t' = cols t /\ cells t' = cells t /\
       cellWidth t' = cellWidth t /\ cellHeight t' = cellHeight t /\
       width (getShapeBounds (Table t')) = width box /\
       height (getShapeBounds (Table t')) = height box /\
       (0 <= table_x t' <= Qmax (bw - width box) 0)%Q /\
       (0 <= table_y t' <= Qmax (bh - height box) 0)%Q
   | Text t, Text t' =>
       text t' = text t /\ fontSize t' = fontSize t /\
       (0 <= text_x t' <= bw)%Q /\ (0 <= text_y t' <= bh)%Q
   | Path p, Path p' =>
       p' = p \/
       (length (points p') = length (points p) /\
        Forall (fun pt => (0 <= pt_x pt <= bw)%Q /\ (0 <= pt_y pt <= bh)%Q)
               (points p'))
   | _, _ => False
   end).
Proof.
  intros bw bh. unfold dragShape. cbv zeta. split.
  - intros Hne. by rewrite decide_True.
  - intros Heq Hbw Hbh.
    destruct shape as [p | t | t];
      (destruct (decide (_ ≠ drag_id drag)) as [Hne | _];
       [by destruct Hne |]).
    + destruct (_ && _); cbn [withPoints]; cbv beta iota; [by left |].
      right. cbn [points].
      split; [by rewrite length_fmap |].
      apply Forall_fmap, Forall_forall. intros pt _. cbn [pt_x pt_y].
      split; by apply clamp_between.
    + cbn [text fontSize text_x text_y].
      repeat split; try done; by apply clamp_between.
    + cbn [getShapeBounds rows cols cells cellWidth cellHeight table_x table_y
           width height minX maxX minY maxY].
      split; [done |]. split; [done |]. split; [done |].
      split; [done |]. split; [done |]. split; [done |]. split; [done |].
      split; apply clamp_between, Q.le_max_r.
Qed.

(** X24. A resize respects the minimum sizes.  [resizeShape] leaves a shape
    of another id as it is.  For the resized shape, when it is of the kind
    it had when the gesture began: a table keeps its rows, columns, cells
    and position and both cell sizes are at least [MIN_TABLE_CELL]; a text
    keeps its content and its font size is between [MIN_TEXT_SIZE] and
    [MAX_TEXT_SIZE]; a path keeps its number of points and, on a board of
    width and height at least [0], every point is on the board. *)
Theorem resizeShape_respects_minimums (resizeState : ResizeRef)
    (position : PointerPosition) (shape : Shape) :
  let bw := size_width (bounds position) in
  let bh := size_height (bounds position) in
  (shape_id shape ≠ resize_id resizeState ->
   resizeShape resizeState position shape = shape) /\
  (shape_id shape = resize_id resizeState ->
   match originalShape resizeState, shape,
         resizeShape resizeState position shape with
   | Table _, Table t, Table t' =>
       rows t' = rows t /\ cols t' = cols t /\ cells t' = cells t /\
       table_x t' = table_x t /\ table_y t' = table_y t /\
       (MIN_TABLE_CELL <= cellWidth t')%Q /\ (MIN_TABLE_CELL <= cellHeight t')%Q
   | Text _, Text t, Text t' =>
       text t' = text t /\ text_x t' = text_x t /\ text_y t' = text_y t /\
       (MIN_TEXT_SIZE <= fontSize t' <= MAX_TEXT_SIZE)%Q
   | Path original, Path _, Path p' =>
       length (points p') = length (points original) /\
       ((0 <= bw)%Q -> (0 <= bh)%Q ->
        Forall (fun pt => (0 <= pt_x pt <= bw)%Q /\ (0 <= pt_y pt <= bh)%Q)
               (points p'))
   | Table _, Table _, _ | Text _, Text _, _ | Path _, Path _, _ => False
   | _, _, _ => True
   end).
Proof.
  intros bw bh. unfold resizeShape. cbv zeta. split.
  - intros Hne. by rewrite decide_True.
  - intros Heq.
    destruct (originalShape resizeState) as [po | to | to],
             shape as [p | t | t]; try done;
      (destruct (decide (_ ≠ resize_id resizeState)) as [Hne | _];
       [by destruct Hne |]);
      cbn [withCellSize withFontSize withPoints].
    + cbn [points]. split; [by rewrite length_fmap |].
      intros Hbw Hbh. apply Forall_fmap, Forall_forall. intros pt _.
      cbn [pt_x pt_y]. split; by apply clamp_between.
    + cbn [text text_x text_y fontSize].
      split; [done |]. split; [done |]. split; [done |].
      destruct (clamp_spec
                  (fontSize to *
                   Qmax
                     (Qmax (width (startBounds resizeState)
                            + (pt_x (point position) - pt_x (startPointer resizeState)))
                           MIN_RESIZE_DIMENSION
                      / Qmax (width (startBounds resizeState)) 1)
                     (Qmax (height (startBounds resizeState)
                            + (pt_y (point position) - pt_y (startPointer resizeState)))
                           MIN_RESIZE_DIMENSION
                      / Qmax (height (startBounds resizeState)) 1))
                  MIN_TEXT_SIZE MAX_TEXT_SIZE) as (Hhi & Hlo & _).
      split; [apply Hlo; discriminate | exact Hhi].
    + cbn [rows cols cells table_x table_y cellWidth cellHeight].
      repeat split; try done; apply Q.le_max_r.
Qed.

Section ResizeGesture.

Variable clientId : string.
Variable userName : string.
Variable numberToString : Q -> string.

#[local] Abbreviation handlePointerUp :=
  (handlePointerUp clientId userName numberToString).
#[local] Abbreviation finalizeShapeResize :=
  (finalizeShapeResize clientId userName numberToString).
#[local] Abbreviation performUndo := (performUndo clientId userName).

Lemma handleResizePointerDown_run (ui : Ui) (event : PointerEvent)
    (shape : Shape) (s : Ctx) :
  tool ui = Resize -> resizingShapeRef ui = None ->
  is_Some (getPointerPosition event) ->
  exists resizeState : ResizeRef,
    resize_id resizeState = shape_id shape /\
    originalShape resizeState = shape /\
    startBounds resizeState = getShapeBounds shape /\
    handleResizePointerDown ui event shape s =
      (setResizing ui (Some resizeState), (saveStateForUndo s).1.2, []).
Proof.
  intros Htool Hres [position Hpos]. unfold handleResizePointerDown.
  rewrite Htool, Hres, Hpos.
  eexists. split; [| split; [| split]];
    [| | | destruct s as [sh hi shr hir u r []]; reflexivity].
  - reflexivity.
  - apply cloneShape_same.
  - reflexivity.
Qed.

Lemma finalizeShapeResize_run (ui : Ui) (resizeState : ResizeRef)
    (fresh : Fresh) (s : Ctx) :
  resizingShapeRef ui = Some resizeState ->
  exists (s' : Ctx) (out : list ChannelMessage),
    finalizeShapeResize ui fresh s = (setResizing ui None, s', out) /\
    undoStackRef s' = undoStackRef s /\ redoStackRef s' = redoStackRef s /\
    isUndoRedoRef s' = isUndoRedoRef s /\
    shape_id <$> shapes s' = shape_id <$> shapes s /\
    length out <= 1 /\
    length (history s') <= S (length (history s)).
Proof.
  intros Hres. unfold finalizeShapeResize. rewrite Hres, bind_gets.
  destruct (List.find _ (shapesRef s)) as [target |].
  - unfold mbind, Handler_bind. rewrite applyShapeUpdate_run.
    cbn [fst snd]. eexists _, _. split; [reflexivity |].
    cbn [shapes history undoStackRef redoStackRef isUndoRedoRef].
    repeat split; try done.
    all: try apply replace_by_id_ids.
    all: try (unfold JS.slice_to; rewrite length_take); cbn [length]; lia.
  - exists s, []. repeat split; try done; cbn [length]; lia.
Qed.

(** X25. A resize is one undo step.  With the resize tool and no resize
    under way, pressing on the handle of a shape, moving the pointer any
    number of times and releasing it pushes exactly one frame on the undo
    stack, the document as it was before the press, and empties the redo
    stack; the release logs at most one entry and posts at most one
    message; the ids of the shapes stay as they were, and one [performUndo]
    after the release gives back the shapes the board had before the
    press. *)
Theorem resize_gesture_is_one_undo_step (ui : Ui) (down : PointerEvent)
    (shape : Shape) (moves : list PointerEvent) (shapeFresh fresh undo : Fresh)
    (s : Ctx) :
  tool ui = Resize -> resizingShapeRef ui = None ->
  is_Some (getPointerPosition down) ->
  rendered s -> isUndoRedoRef s = false ->
  let pressed := fireUi (handleResizePointerDown ui down shape) s in
  let moved := pointerMoves moves pressed.1.1 pressed.1.2 in
  let released := fireUi (handlePointerUp moved.1 shapeFresh fresh) moved.2 in
  pressed.2 = [] /\
  undoStackRef released.1.2 =
    JS.slice_last 50 (undoStackRef s ++ [mkSnapshot (shapes s) (history s)]) /\
  redoStackRef released.1.2 = [] /\
  resizingShapeRef released.1.1 = None /\
  shape_id <$> shapes released.1.2 = shape_id <$> shapes s /\
  length released.2 <= 1 /\
  length (history released.1.2) <= S (length (history s)) /\
  shapes (fire (performUndo undo) released.1.2).1 = shapes s.
Proof.
  intros Htool Hres Hpos Hr Hflag pressed moved released.
  destruct (handleResizePointerDown_run ui down shape s Htool Hres Hpos)
    as (resizeState & _ & _ & _ & Hdown).
  assert (Hpressed : pressed =
            (setResizing ui (Some resizeState),
             flushEffects (saveStateForUndo s).1.2, [])).
  { subst pressed. unfold fireUi. by rewrite Hdown. }
  rewrite saveStateForUndo_run, Hflag in Hpressed. cbn [fst snd] in Hpressed.
  destruct Hr as [Hsh Hhi]. rewrite Hsh, Hhi in Hpressed.
  destruct (pointerMoves_keeps moves pressed.1.1 pressed.1.2)
    as (_ & _ & Mres & Mhist & Mundo & Mredo & Mflag & Mids & _).
  fold moved in Mres, Mhist, Mundo, Mredo, Mflag, Mids.
  rewrite Hpressed in Mres, Mhist, Mundo, Mredo, Mflag, Mids.
  cbn [fst snd resizingShapeRef setResizing history
       undoStackRef redoStackRef isUndoRedoRef shapes flushEffects]
    in Mres, Mhist, Mundo, Mredo, Mflag, Mids.
  destruct (finalizeShapeResize_run moved.1 resizeState fresh moved.2 Mres)
    as (s' & out & Hfin & Fundo & Fredo & Fflag & Fids & Fout & Fhist).
  assert (Hreleased : released = (setResizing moved.1 None, flushEffects s', out)).
  { subst released. unfold fireUi, handlePointerUp.
    rewrite Mres. by rewrite Hfin. }
  rewrite Hreleased. cbn [fst snd].
  assert (Hstack : undoStackRef (flushEffects s') =
            JS.slice_last 49 (undoStackRef s)
              ++ [mkSnapshot (shapes s) (history s)]).
  { cbn [flushEffects undoStackRef]. rewrite Fundo, Mundo.
    rewrite slice_last_app_short by (cbn [length]; lia). reflexivity. }
  split; [by rewrite Hpressed |].
  split; [cbn [flushEffects undoStackRef]; by rewrite Fundo, Mundo |].
  split; [cbn [flushEffects redoStackRef]; by rewrite Fredo, Mredo |].
  split; [done |].
  split; [cbn [flushEffects shapes]; by rewrite Fids, Mids |].
  split; [done |].
  split; [cbn [flushEffects history]; by rewrite <- Mhist |].
  unfold fire.
  by rewrite (performUndo_run clientId userName undo _ _ _ Hstack).
Qed.

End ResizeGesture.

(** ** The further properties on sample sessions *)

Lemma path_bounds_contain_points_witness :
  mkPoint 5 8 ∈ points samplePath /\
  isPointInsideBounds (mkPoint 5 8) (getShapeBounds (Path samplePath)) = true.
Proof.
  assert (Hin : mkPoint 5 8 ∈ points samplePath)
    by (unfold samplePath; cbn [points]; do 2 constructor).
  split; [exact Hin |].
  exact (path_bounds_contain_points samplePath (mkPoint 5 8) Hin).
Defined.

Lemma ensureTableCells_keeps_complete_witness :
  (cells sampleTable = Some [["a"; "b"]; ["c"; "d"]] /\
   (inject_Z (Z.of_nat (length [["a"; "b"]; ["c"; "d"]])) == rows sampleTable)%Q /\
   Forall (fun cellRow : list string =>
             (inject_Z (Z.of_nat (length cellRow)) == cols sampleTable)%Q)
          [["a"; "b"]; ["c"; "d"]]) /\
  ensureTableCells sampleTable = sampleTable /\
  normalizeShape (RawTable sampleTable) = Table sampleTable.
Proof.
  assert (Hrows : (inject_Z (Z.of_nat (length [["a"; "b"]; ["c"; "d"]]))
                   == rows sampleTable)%Q) by reflexivity.
  assert (Hcols : Forall (fun cellRow : list string =>
                            (inject_Z (Z.of_nat (length cellRow))
                             == cols sampleTable)%Q)
                         [["a"; "b"]; ["c"; "d"]])
    by (repeat constructor).
  split; [split; [reflexivity | split; [exact Hrows | exact Hcols]] |].
  exact (ensureTableCells_keeps_complete sampleTable _ eq_refl Hrows Hcols).
Defined.

Lemma mutation_replicates_witness :
  ("tab-A" <> "tab-B" /\ shapes emptyCtx = shapes emptyCtx) /\
  let m := MCommitShape (Table raggedTable) "ann created a 2x2 table" in
  shapes (deliver "tab-B" (fire (mutate "tab-A" "ann" m (freshAt 1)) emptyCtx).2
                  emptyCtx)
  = shapes (fire (mutate "tab-A" "ann" m (freshAt 1)) emptyCtx).1.
Proof.
  assert (Hid : "tab-A" <> "tab-B") by discriminate.
  split; [split; [exact Hid | reflexivity] |].
  exact (proj1 (mutation_replicates "tab-A" "tab-B" "ann" emptyCtx emptyCtx
                  (MCommitShape (Table raggedTable) "ann created a 2x2 table")
                  (freshAt 1) Hid eq_refl)).
Defined.

Lemma undo_redo_replicates_witness :
  ("tab-A" <> "tab-B" /\
   undoStackRef undoableCtx = [] ++ [mkSnapshot [] []]) /\
  shapes (deliver "tab-B"
            (fire (performUndo "tab-A" "ann" (freshAt 1)) undoableCtx).2
            sampleBoardCtx) = normalizeShapes [] /\
  history (deliver "tab-B"
             (fire (performUndo "tab-A" "ann" (freshAt 1)) undoableCtx).2
             sampleBoardCtx) = [].
Proof.
  assert (Hid : "tab-A" <> "tab-B") by discriminate.
  split; [split; [exact Hid | reflexivity] |].
  destruct (undo_redo_replicates "tab-A" "tab-B" "ann" undoableCtx
              sampleBoardCtx (freshAt 1) false [] (mkSnapshot [] []) Hid eq_refl)
    as (_ & _ & Hshapes & Hhistory & _).
  split; [exact Hshapes | exact Hhistory].
Defined.

Lemma sync_handshake_witness :
  ("tab-A" <> "tab-B" /\ rendered sampleBoardCtx) /\
  let reply :=
    (fire (handleMessage "tab-A" (Some (SyncRequest "tab-B"))) sampleBoardCtx).2 in
  reply = [SyncState (toRaw <$> shapes sampleBoardCtx)
                     (history sampleBoardCtx) "tab-A"] /\
  shapes (deliver "tab-B" reply emptyCtx)
    = normalizeShapes (toRaw <$> shapes sampleBoardCtx) /\
  history (deliver "tab-B" reply emptyCtx) = history sampleBoardCtx.
Proof.
  assert (Hid : "tab-A" <> "tab-B") by discriminate.
  assert (Hr : rendered sampleBoardCtx) by (split; reflexivity).
  split; [split; [exact Hid | exact Hr] |].
  destruct (sync_handshake "tab-A" "tab-B" sampleBoardCtx emptyCtx Hid Hr)
    as (_ & Hreply & Hshapes & Hhistory & _).
  split; [exact Hreply | split; [exact Hshapes | exact Hhistory]].
Defined.

Lemma undo_then_redo_witness :
  (rendered undoableCtx /\
   undoStackRef undoableCtx = [] ++ [mkSnapshot [] []]) /\
  let s1 := (fire (performUndo "tab-A" "ann" (freshAt 1)) undoableCtx).1 in
  let s2 := (fire (performRedo "tab-A" "ann" (freshAt 2)) s1).1 in
  shapes s1 = [] /\ shapes s2 = shapes undoableCtx.
Proof.
  assert (Hr : rendered undoableCtx) by (split; reflexivity).
  split; [split; [exact Hr | reflexivity] |].
  destruct (undo_then_redo "tab-A" "ann" (freshAt 1) (freshAt 2) undoableCtx
              [] (mkSnapshot [] []) Hr eq_refl)
    as (Hundo & Hredo & _).
  split; [exact Hundo | exact Hredo].
Defined.

Lemma updateTableCell_writes_cell_witness :
  cellAt (ensureTableCells raggedTable) 1 1 <> Some (JS.trim " z ") /\
  exists (t' : TableShape) (entry : HistoryItem),
    (updateTableCell "tab-A" "ann" raggedTable 1 1 " z " (freshAt 1)
                     sampleBoardCtx).2
      = [UpdateShape (RawTable t') entry "tab-A"] /\
    cellAt t' 1 1 = Some "z" /\ cellAt t' 1 0 = Some "d" /\
    cellAt t' 0 2 = None.
Proof.
  assert (Hdiff : cellAt (ensureTableCells raggedTable) 1 1
                  <> Some (JS.trim " z ")) by discriminate.
  split; [exact Hdiff |].
  destruct (updateTableCell_writes_cell "tab-A" "ann" raggedTable 1 1 " z "
              (freshAt 1) sampleBoardCtx Hdiff)
    as (t' & entry & Hout & _ & _ & _ & _ & _ & Hcells).
  exists t', entry. split; [exact Hout |].
  split; [exact (Hcells 1 1) | split; [exact (Hcells 1 0) | exact (Hcells 0 2)]].
Defined.

Lemma drag_gesture_is_one_undo_step_witness :
  (tool (uiWith Move) = Move /\
   draggingShapeRef (uiWith Move) = None /\
   resizingShapeRef (uiWith Move) = None /\
   is_Some (getPointerPosition (pointerAt 15 25)) /\
   rendered sampleBoardCtx /\ isUndoRedoRef sampleBoardCtx = false) /\
  let pressed :=
    fireUi (handleShapePointerDown (uiWith Move) (pointerAt 15 25)
                                   (Table sampleTable)) sampleBoardCtx in
  let moved :=
    pointerMoves [pointerAt 100 100; pointerAt 120 130] pressed.1.1 pressed.1.2 in
  let released :=
    fireUi (handlePointerUp "tab-A" "ann" wholeNumberToString moved.1
                            (freshAt 2) (freshAt 3))
           moved.2 in
  length (undoStackRef released.1.2) = 1 /\
  shapes (fire (performUndo "tab-A" "ann" (freshAt 4)) released.1.2).1
    = shapes sampleBoardCtx.
Proof.
  assert (Hpos : is_Some (getPointerPosition (pointerAt 15 25)))
    by (eexists; reflexivity).
  assert (Hr : rendered sampleBoardCtx) by (split; reflexivity).
  split.
  { split; [reflexivity |]. split; [reflexivity |]. split; [reflexivity |].
    split; [exact Hpos |]. split; [exact Hr | reflexivity]. }
  destruct (drag_gesture_is_one_undo_step "tab-A" "ann" wholeNumberToString
              (uiWith Move)
              (pointerAt 15 25) (Table sampleTable)
              [pointerAt 100 100; pointerAt 120 130]
              (freshAt 2) (freshAt 3) (freshAt 4) sampleBoardCtx
              eq_refl eq_refl eq_refl Hpos Hr eq_refl)
    as (_ & Hstack & _ & _ & _ & _ & _ & Hundo).
  split; [| exact Hundo].
  exact (f_equal length Hstack).
Defined.

Lemma resize_gesture_is_one_undo_step_witness :
  (tool (uiWith Resize) = Resize /\
   resizingShapeRef (uiWith Resize) = None /\
   is_Some (getPointerPosition (pointerAt 170 100)) /\
   rendered sampleBoardCtx /\ isUndoRedoRef sampleBoardCtx = false) /\
  let pressed :=
    fireUi (handleResizePointerDown (uiWith Resize) (pointerAt 170 100)
                                    (Table sampleTable)) sampleBoardCtx in
  let moved :=
    pointerMoves [pointerAt 200 140; pointerAt 250 180] pressed.1.1 pressed.1.2 in
  let released :=
    fireUi (handlePointerUp "tab-A" "ann" wholeNumberToString moved.1
                            (freshAt 2) (freshAt 3))
           moved.2 in
  length (undoStackRef released.1.2) = 1 /\
  shapes (fire (performUndo "tab-A" "ann" (freshAt 4)) released.1.2).1
    = shapes sampleBoardCtx.
Proof.
  assert (Hpos : is_Some (getPointerPosition (pointerAt 170 100)))
    by (eexists; reflexivity).
  assert (Hr : rendered sampleBoardCtx) by (split; reflexivity).
  split.
  { split; [reflexivity |]. split; [reflexivity |].
    split; [exact Hpos |]. split; [exact Hr | reflexivity]. }
  destruct (resize_gesture_is_one_undo_step "tab-A" "ann" wholeNumberToString
              (uiWith Resize)
              (pointerAt 170 100) (Table sampleTable)
              [pointerAt 200 140; pointerAt 250 180]
              (freshAt 2) (freshAt 3) (freshAt 4) sampleBoardCtx
              eq_refl eq_refl Hpos Hr eq_refl)
    as (_ & Hstack & _ & _ & _ & _ & _ & Hundo).
  split; [| exact Hundo].
  exact (f_equal length Hstack).
Defined.

Lemma pen_gesture_commits_stroke_witness :
  (tool (uiWith Pen) = Pen /\
   draggingShapeRef (uiWith Pen) = None /\
   resizingShapeRef (uiWith Pen) = None /\
   rendered sampleBoardCtx /\ isUndoRedoRef sampleBoardCtx = false /\
   getRelativePoint (pointerAt 15 25) = Some (mkPoint 15 25)) /\
  exists pressed : Ui * Ctx * list ChannelMessage,
    (h ← handlePointerDown "tab-A" "ann" wholeNumberToString (uiWith Pen)
                           (pointerAt 15 25) (freshAt 1);
     Some (fireUi h sampleBoardCtx)) = Some pressed /\
    tempPoints
      (pointerMoves [pointerAt 30 40; pointerAt 900 50] pressed.1.1 pressed.1.2).1
    = [mkPoint 15 25; mkPoint 30 40; mkPoint 800 50].
Proof.
  assert (Hr : rendered sampleBoardCtx) by (split; reflexivity).
  split.
  { split; [reflexivity |]. split; [reflexivity |]. split; [reflexivity |].
    split; [exact Hr |]. split; reflexivity. }
  destruct (pen_gesture_commits_stroke "tab-A" "ann" wholeNumberToString
              (uiWith Pen)
              (pointerAt 15 25) (mkPoint 15 25)
              [pointerAt 30 40; pointerAt 900 50]
              (freshAt 1) (freshAt 2) (freshAt 3) sampleBoardCtx
              eq_refl eq_refl eq_refl Hr eq_refl eq_refl)
    as (pressed & Hdown & _ & _ & Hpoints & _).
  exists pressed. split; [exact Hdown | exact Hpoints].
Defined.

Lemma eraser_deletes_hit_shape_witness :
  (tool (uiWith Eraser) = Eraser /\ rendered sampleBoardCtx /\
   getRelativePoint (pointerAt 5 8) = Some (mkPoint 5 8)) /\
  exists pressed : Ui * Ctx * list ChannelMessage,
    (h ← handlePointerDown "tab-A" "ann" wholeNumberToString (uiWith Eraser)
                           (pointerAt 5 8) (freshAt 1);
     Some (fireUi h sampleBoardCtx)) = Some pressed /\
    pressed.1.1 = uiWith Eraser /\
    match findShapeAtPoint (shapes sampleBoardCtx) (mkPoint 5 8) with
    | None => pressed.1.2 = sampleBoardCtx /\ pressed.2 = []
    | Some target =>
        shapes pressed.1.2 =
          filter (fun shape => shape_id shape ≠ shape_id target)
                 (shapes sampleBoardCtx)
    end.
Proof.
  assert (Hr : rendered sampleBoardCtx) by (split; reflexivity).
  split; [split; [reflexivity | split; [exact Hr | reflexivity]] |].
  destruct (eraser_deletes_hit_shape "tab-A" "ann" wholeNumberToString
              (uiWith Eraser)
              (pointerAt 5 8) (mkPoint 5 8) (freshAt 1) sampleBoardCtx
              eq_refl Hr eq_refl)
    as (pressed & Hdown & Hui & Hcase).
  exists pressed. split; [exact Hdown |]. split; [exact Hui |].
  destruct (findShapeAtPoint (shapes sampleBoardCtx) (mkPoint 5 8)).
  - destruct Hcase as (_ & _ & Hshapes & _). exact Hshapes.
  - exact Hcase.
Defined.

Lemma sampleEnd_reached :
  steps "tab-A" "ann" wholeNumberToString sampleEvents sampleStart = Some sampleEnd.
Proof. vm_compute. reflexivity. Defined.

Lemma sampleLocalEnd_reached :
  steps "tab-A" "ann" wholeNumberToString sampleLocalEvents sampleStart = Some sampleLocalEnd.
Proof. vm_compute. reflexivity. Defined.

Lemma stacks_within_budget_witness :
  (withinBudget sampleStart.2 /\
   steps "tab-A" "ann" wholeNumberToString sampleEvents sampleStart = Some sampleEnd) /\
  withinBudget sampleEnd.2 /\
  length (undoStackRef sampleEnd.2) <= 50 /\
  length (redoStackRef sampleEnd.2) <= 50.
Proof.
  assert (Hb : withinBudget sampleStart.2)
    by (unfold withinBudget; simpl; lia).
  split; [split; [exact Hb | exact sampleEnd_reached] |].
  exact (stacks_within_budget "tab-A" "ann" wholeNumberToString sampleEvents
           sampleStart sampleEnd
           Hb sampleEnd_reached).
Defined.

Lemma sampleStart_wellFormed : wellFormed sampleStart.2.
Proof.
  split; [split; reflexivity |]. split.
  - repeat constructor.
  - constructor.
Defined.

Lemma tables_stay_complete_witness :
  (wellFormed sampleStart.2 /\
   steps "tab-A" "ann" wholeNumberToString sampleEvents sampleStart = Some sampleEnd) /\
  wellFormed sampleEnd.2.
Proof.
  split; [split; [exact sampleStart_wellFormed | exact sampleEnd_reached] |].
  exact (proj1 (tables_stay_complete "tab-A" "ann" wholeNumberToString
                  sampleEvents sampleStart sampleEnd
                  sampleStart_wellFormed sampleEnd_reached)).
Defined.

Lemma local_events_keep_history_cap_witness :
  (forallb isLocal sampleLocalEvents = true /\
   steps "tab-A" "ann" wholeNumberToString sampleLocalEvents sampleStart = Some sampleLocalEnd) /\
  (length (history sampleStart.2) <= 250 ->
   length (history sampleLocalEnd.2) <= 250).
Proof.
  split; [split; [reflexivity | exact sampleLocalEnd_reached] |].
  exact (proj2 (local_events_keep_history_cap "tab-A" "ann" wholeNumberToString
                  sampleLocalEvents sampleStart sampleLocalEnd
                  eq_refl sampleLocalEnd_reached)).
Defined.
